(** * promlinter: the syntax-tree matcher and literal resolver of promlinter.go

    A shallow embedding of [promlinter.go]: the visitor that walks a Go
    syntax tree, recognises metric constructors and const-metric sends,
    resolves their string-valued fields and collects descriptors and issues,
    followed by the properties of that code. *)

From Stdlib Require Import String Ascii List ZArith Bool Arith Lia.
From Stdlib Require Import DecimalString.
From Stdlib Require Import Sorting.Sorted Sorting.Permutation.
From Stdlib Require Import Structures.OrdersEx.
Import ListNotations.

#[local] Set Warnings "-register-all".

Local Open Scope list_scope.
Local Open Scope string_scope.

(** ** Go runtime pieces used by the program *)

(** [strconv.Itoa] and the [%d] verb of [fmt.Sprintf]. *)
Definition Itoa (n : Z) : string := NilZero.string_of_int (Z.to_int n).

(** [strings.HasSuffix]. *)
Definition HasSuffix (s suffix : string) : bool :=
  (String.length suffix <=? String.length s)%nat &&
  (substring (String.length s - String.length suffix) (String.length suffix) s =? suffix).

(** A Go map with string keys, written as the literal that builds it. *)
Fixpoint mapGet {V : Type} (m : list (string * V)) (k : string) : option V :=
  match m with
  | [] => None
  | (k', x) :: m' => if k' =? k then Some x else mapGet m' k
  end.

(** ** package go/token *)
Module token.

(** [token.Pos]: a compact offset into the file set; [NoPos] is 0. *)
Definition Pos := Z.
Definition NoPos : Pos := 0%Z.

Record Position := mkPosition {
  Filename : string;
  Offset : Z;
  Line : Z;
  Column : Z
}.

Definition IsValid (pos : Position) : bool := (0 <? Line pos)%Z.

(** [func (pos Position) String() string]. *)
Definition Position_String (pos : Position) : string :=
  let s := Filename pos in
  let s :=
    if IsValid pos then
      let s := if negb (s =? "") then s ++ ":" else s in
      let s := s ++ Itoa (Line pos) in
      if negb (Column pos =? 0)%Z then s ++ ":" ++ Itoa (Column pos) else s
    else s in
  if s =? "" then "-" else s.

(** The literal kinds and binary operators of [token.Token]. *)
Inductive Token :=
| INT | FLOAT | IMAG | CHAR | STRING
| ADD | SUB | MUL | QUO | REM
| AND | OR | XOR | SHL | SHR | AND_NOT
| LAND | LOR | EQL | LSS | GTR | NEQ | LEQ | GEQ.

Definition Token_eqb (a b : Token) : bool :=
  match a, b with
  | INT, INT | FLOAT, FLOAT | IMAG, IMAG | CHAR, CHAR | STRING, STRING
  | ADD, ADD | SUB, SUB | MUL, MUL | QUO, QUO | REM, REM
  | AND, AND | OR, OR | XOR, XOR | SHL, SHL | SHR, SHR | AND_NOT, AND_NOT
  | LAND, LAND | LOR, LOR | EQL, EQL | LSS, LSS | GTR, GTR | NEQ, NEQ
  | LEQ, LEQ | GEQ, GEQ => true
  | _, _ => false
  end.

End token.

(** ** package go/ast *)
Module ast.

(** An [*ast.Object] is named by a number; its [Decl] field is looked up in
    the declaration table of the parsed files (see [Decls] below), so that
    the pointer graph of the tree, cycles included, can be written down. *)
Definition Object := nat.

Record IdentData := mkIdent {
  NamePos : token.Pos;
  Name : string;
  Obj : option Object
}.

(** The node types the linter looks at, and [Other] for every remaining
    node type of go/ast: its Go type name (what [%T] prints), its position
    and the children [ast.Walk] descends into. *)
Inductive Node :=
| BasicLit (ValuePos : token.Pos) (Kind : token.Token) (Value : string)
| Ident (id : IdentData)
| BinaryExpr (X : Node) (Op : token.Token) (Y : Node)
| CallExpr (Fun : Node) (Args : list Node)
| SelectorExpr (X : Node) (Sel : IdentData)
| CompositeLit (Type_ : option Node) (Lbrace : token.Pos) (Elts : list Node)
| KeyValueExpr (Key : Node) (Value : Node)
| SendStmt (Chan : Node) (Value : Node)
| AssignStmt (Lhs : list Node) (Rhs : list Node)
| ValueSpec (Names : list IdentData) (Type_ : option Node) (Values : list Node)
| Other (T : string) (pos : token.Pos) (children : list Node).

(** [Object.Decl]: [None] is the nil interface. *)
Definition Decls := Object -> option Node.

(** [n.Pos()].  An assignment without left-hand side and a value-spec
    without names do not come out of the parser; they are given [NoPos]. *)
Fixpoint Pos (n : Node) : token.Pos :=
  match n with
  | BasicLit p _ _ => p
  | Ident i => NamePos i
  | BinaryExpr x _ _ => Pos x
  | CallExpr f _ => Pos f
  | SelectorExpr x _ => Pos x
  | CompositeLit (Some t) _ _ => Pos t
  | CompositeLit None lbrace _ => lbrace
  | KeyValueExpr k _ => Pos k
  | SendStmt c _ => Pos c
  | AssignStmt (l :: _) _ => Pos l
  | AssignStmt [] _ => token.NoPos
  | ValueSpec (i :: _) _ _ => NamePos i
  | ValueSpec [] _ _ => token.NoPos
  | Other _ p _ => p
  end.

(** What [%T] prints for a node. *)
Definition TypeName (n : Node) : string :=
  match n with
  | BasicLit _ _ _ => "*ast.BasicLit"
  | Ident _ => "*ast.Ident"
  | BinaryExpr _ _ _ => "*ast.BinaryExpr"
  | CallExpr _ _ => "*ast.CallExpr"
  | SelectorExpr _ _ => "*ast.SelectorExpr"
  | CompositeLit _ _ _ => "*ast.CompositeLit"
  | KeyValueExpr _ _ => "*ast.KeyValueExpr"
  | SendStmt _ _ => "*ast.SendStmt"
  | AssignStmt _ _ => "*ast.AssignStmt"
  | ValueSpec _ _ _ => "*ast.ValueSpec"
  | Other T _ _ => T
  end.

(** What [%T] prints for an [Object.Decl]. *)
Definition DeclTypeName (d : option Node) : string :=
  match d with
  | None => "<nil>"
  | Some n => TypeName n
  end.

End ast.

(** ** package dto (client_model) *)
Module dto.

Inductive MetricType :=
| MetricType_COUNTER
| MetricType_GAUGE
| MetricType_SUMMARY
| MetricType_UNTYPED
| MetricType_HISTOGRAM.

(** The three pointer fields of [dto.MetricFamily] the linter fills in;
    [None] is the nil pointer. *)
Record MetricFamily := mkMetricFamily {
  Name : option string;
  Help : option string;
  Type_ : option MetricType
}.

End dto.

(** ** package promlint *)
Module promlint.

Record Problem := mkProblem {
  Metric : string;
  Text : string
}.

End promlint.

(** ** package prometheus (client_golang) *)
Module prometheus.

(** [prometheus.BuildFQName], called at promlinter.go:186.  Its body lives in
    client_golang, whose documentation reads: BuildFQName joins the given
    three name components by an underscore.  Empty name components are
    ignored.  If the name parameter itself is empty, an empty string is
    returned, no matter what. *)
Definition BuildFQName (namespace subsystem name : string) : string :=
  if name =? "" then ""
  else
    let sb := "" in
    let sb := if negb (namespace =? "") then sb ++ namespace ++ "_" else sb in
    let sb := if negb (subsystem =? "") then sb ++ subsystem ++ "_" else sb in
    sb ++ name.

End prometheus.

(** ** package sort *)
Module sort.

Section Slice.
Context {A : Type}.
Variable less : A -> A -> bool.

(** The inner loop of the library's insertion sort: the element at index
    [i] is swapped towards the front while it is less than its left
    neighbour.  [sorted] is the part of the slice before it, last element
    first. *)
Fixpoint sink (x : A) (sorted : list A) : list A :=
  match sorted with
  | [] => [x]
  | y :: rest => if less x y then y :: sink x rest else x :: y :: rest
  end.

(** Modelled from the spec: [sort.Slice] belongs to the Go standard library
    and is not part of the repository; section 4.6 only asks that the list
    be sorted by the position ordering.  The model is the insertion sort the
    library itself runs on slices of at most twelve elements:
    [for i := a + 1; i < b; i++ { for j := i; j > a && less(j, j-1); j-- { swap(j, j-1) } }]. *)
Definition Slice (x : list A) : list A :=
  rev (fold_left (fun sorted e => sink e sorted) x []).

End Slice.

End sort.

(** ** package promlinter *)

Definition metricsType : list (string * dto.MetricType) :=
  [ ("NewCounter", dto.MetricType_COUNTER);
    ("NewCounterVec", dto.MetricType_COUNTER);
    ("NewGauge", dto.MetricType_GAUGE);
    ("NewGaugeVec", dto.MetricType_GAUGE);
    ("NewHistogram", dto.MetricType_HISTOGRAM);
    ("NewHistogramVec", dto.MetricType_HISTOGRAM);
    ("NewSummary", dto.MetricType_SUMMARY);
    ("NewSummaryVec", dto.MetricType_SUMMARY) ].

Definition constMetricArgs : list (string * Z) :=
  [ ("MustNewConstMetric", 3%Z);
    ("MustNewHistogram", 4%Z);
    ("MustNewSummary", 4%Z) ].

Definition validOptsFields : list (string * bool) :=
  [ ("Name", true);
    ("Namespace", true);
    ("Subsystem", true);
    ("Help", true) ].

(** [type Issue struct]. *)
Record Issue := mkIssue {
  Pos : token.Position;
  Metric : string;
  Text : string
}.

(** [type visitor struct].  [metrics] is a Go map keyed by the address of a
    freshly allocated [dto.MetricFamily]: every insertion adds an entry, so
    the map is the list of its entries in insertion order. *)
Record visitor := mkVisitor {
  fs : token.Pos -> token.Position;
  metrics : list (dto.MetricFamily * token.Position);
  issues : list Issue;
  strict : bool
}.

(** [type opt struct]. *)
Record opt := mkOpt {
  namespace : string;
  subsystem : string;
  name : string
}.

(** How a call on the visitor ends: it returns, it panics, or the model has
    used up the recursion budget it was given. *)
Inductive panic :=
| IndexOutOfRange
| UnquoteError
| LintError.

Inductive result (A : Type) :=
| Ok (a : A)
| Panic (p : panic)
| OutOfFuel.

Arguments Ok {A} a.
Arguments Panic {A} p.
Arguments OutOfFuel {A}.

(** Methods on [*visitor] read and update the visitor they are called on. *)
Definition M (A : Type) : Type := visitor -> result (A * visitor).

Definition ret {A : Type} (a : A) : M A := fun v => Ok (a, v).

Definition bind {A B : Type} (c : M A) (k : A -> M B) : M B :=
  fun v =>
    match c v with
    | Ok (a, v') => k a v'
    | Panic p => Panic p
    | OutOfFuel => OutOfFuel
    end.

Definition raise {A : Type} (p : panic) : M A := fun _ => Panic p.

Definition gets {A : Type} (f : visitor -> A) : M A := fun v => Ok (f v, v).

Declare Scope visitor_scope.
Delimit Scope visitor_scope with visitor.
Notation "x <- c ;; k" := (bind c (fun x => k))
  (at level 61, c at next level, right associativity) : visitor_scope.
Notation "' p <- c ;; k" := (bind c (fun x => let 'p := x in k))
  (at level 61, p pattern, c at next level, right associativity) : visitor_scope.
Notation "c ;; k" := (bind c (fun _ => k))
  (at level 61, right associativity) : visitor_scope.
Local Open Scope visitor_scope.

(** [v.issues = append(v.issues, i)]. *)
Definition appendIssue (i : Issue) : M unit :=
  fun v => Ok (tt, mkVisitor (fs v) (metrics v) (issues v ++ [i])%list (strict v)).

(** [v.issues = append(v.issues, i)], once per element of [l]. *)
Definition appendIssues (l : list Issue) : M unit :=
  fun v => Ok (tt, mkVisitor (fs v) (metrics v) (issues v ++ l)%list (strict v)).

(** [v.metrics[m] = pos] for a fresh pointer [m]. *)
Definition addMetric (m : dto.MetricFamily) (pos : token.Position) : M unit :=
  fun v => Ok (tt, mkVisitor (fs v) (metrics v ++ [(m, pos)])%list (issues v) (strict v)).

(** [v.fs.Position(p)]. *)
Definition Position (p : token.Pos) : M token.Position :=
  gets (fun v => fs v p).

(** [args[i]]: indexing a slice out of range panics. *)
Definition index {A : Type} (args : list A) (i : nat) : M A :=
  match nth_error args i with
  | Some a => ret a
  | None => raise IndexOutOfRange
  end.

(** [func getConstMetricType(name string) *dto.MetricType]. *)
Definition getConstMetricType (name : string) : option dto.MetricType :=
  let metricType := dto.MetricType_UNTYPED in
  let metricType :=
    if name =? "CounterValue" then dto.MetricType_COUNTER
    else if name =? "GaugeValue" then dto.MetricType_GAUGE
    else metricType in
  Some metricType.

Section Visitor.

(** [strconv.Unquote]: the unquoted text, or [None] for its error. *)
Variable Unquote : string -> option string.

(** [promlint.NewWithMetricFamilies([]*dto.MetricFamily{m}).Lint()]: the
    problems found, or [None] for its error. *)
Variable Lint : dto.MetricFamily -> option (list promlint.Problem).

(** The order in which [for metric := range v.metrics] visits the entries;
    Go leaves it unspecified. *)
Variable rangeOrder :
  list (dto.MetricFamily * token.Position) -> list (dto.MetricFamily * token.Position).

(** [Object.Decl] of the identifiers of the files under analysis. *)
Variable Decl : ast.Decls.

(** [func mustUnquote(str string) string]. *)
Definition mustUnquote (str : string) : M string :=
  match Unquote str with
  | Some stringLiteral => ret stringLiteral
  | None => raise UnquoteError
  end.

(** [func (v *visitor) parseValue(object string, n ast.Node) (string, bool)].
    The source recurses without a bound; [fuel] is the depth of calls the
    model may make before it gives up with [OutOfFuel]. *)
Fixpoint parseValue (fuel : nat) (object : string) (n : ast.Node) : M (string * bool) :=
  match fuel with
  | O => fun _ => OutOfFuel
  | S fuel =>
    match n with
    | ast.BasicLit _ Kind Value =>
      if token.Token_eqb Kind token.STRING then
        s <- mustUnquote Value ;; ret (s, true)
      else ret ("", false)
    | ast.Ident t =>
      match ast.Obj t with
      | None => ret ("", false)
      | Some obj =>
        match Decl obj with
        | Some (ast.ValueSpec _ _ _ as vs) => parseValue fuel object vs
        | _ => ret ("", false)
        end
      end
    | ast.ValueSpec _ _ Values =>
      match Values with
      | [] => ret ("", false)
      | v0 :: _ => parseValue fuel object v0
      end
    | ast.BinaryExpr X Op Y =>
      if token.Token_eqb Op token.ADD then
        '(x, ok) <- parseValue fuel object X ;;
        if negb ok then ret ("", false)
        else
          '(y, ok) <- parseValue fuel object Y ;;
          if negb ok then ret ("", false)
          else ret (x ++ y, true)
      else ret ("", false)
    | _ =>
      isStrict <- gets strict ;;
      (if isStrict then
         pos <- Position (ast.Pos n) ;;
         appendIssue (mkIssue pos ""
           ("parsing field " ++ object ++ " with type " ++ ast.TypeName n ++ " is not supported"))
       else ret tt) ;;
      ret ("", false)
    end
  end.

(** The loop of [parseCompositeOpts] over [stmt.Elts], with the locals
    [metricOption] and [help] it updates. *)
Fixpoint parseCompositeOptsElts (fuel : nat) (Elts : list ast.Node)
    (metricOption : opt) (help : option string) : M (option opt * option string) :=
  match Elts with
  | [] => ret (Some metricOption, help)
  | elt :: Elts =>
    match elt with
    | ast.KeyValueExpr (ast.Ident object) Value =>
      match mapGet validOptsFields (ast.Name object) with
      | None => parseCompositeOptsElts fuel Elts metricOption help
      | Some _ =>
        '(stringLiteral, ok) <- parseValue fuel (ast.Name object) Value ;;
        if negb ok then ret (None, None)
        else if ast.Name object =? "Namespace" then
          parseCompositeOptsElts fuel Elts
            (mkOpt stringLiteral (subsystem metricOption) (name metricOption)) help
        else if ast.Name object =? "Subsystem" then
          parseCompositeOptsElts fuel Elts
            (mkOpt (namespace metricOption) stringLiteral (name metricOption)) help
        else if ast.Name object =? "Name" then
          parseCompositeOptsElts fuel Elts
            (mkOpt (namespace metricOption) (subsystem metricOption) stringLiteral) help
        else if ast.Name object =? "Help" then
          parseCompositeOptsElts fuel Elts metricOption (Some stringLiteral)
        else parseCompositeOptsElts fuel Elts metricOption help
      end
    | _ => parseCompositeOptsElts fuel Elts metricOption help
    end
  end.

(** [func (v *visitor) parseCompositeOpts(stmt *ast.CompositeLit)], which
    returns an [*opt] and a [*string]; [None] is nil. *)
Definition parseCompositeOpts (fuel : nat) (Elts : list ast.Node) : M (option opt * option string) :=
  parseCompositeOptsElts fuel Elts (mkOpt "" "" "") None.

(** [func (v *visitor) parseOpts(n ast.Node)], with the same result types. *)
Definition parseOpts (fuel : nat) (n : ast.Node) : M (option opt * option string) :=
  match n with
  | ast.CompositeLit _ _ Elts => parseCompositeOpts fuel Elts
  | ast.Ident stmt =>
    match ast.Obj stmt with
    | Some obj =>
      match Decl obj with
      | Some (ast.AssignStmt _ (ast.CompositeLit _ _ Elts :: _)) => parseCompositeOpts fuel Elts
      | _ => ret (None, None)
      end
    | None => ret (None, None)
    end
  | _ => ret (None, None)
  end.

(** [func (v *visitor) parseCallerExpr(call *ast.CallExpr) ast.Visitor];
    the visitor it returns is always [v] itself. *)
Definition parseCallerExpr (fuel : nat) (Fun : ast.Node) (Args : list ast.Node) : M unit :=
  let found :=
    match Fun with
    | ast.Ident stmt =>
      match mapGet metricsType (ast.Name stmt) with
      | Some metricType => Some (metricType, ast.Name stmt)
      | None => None
      end
    | ast.SelectorExpr _ Sel =>
      match mapGet metricsType (ast.Name Sel) with
      | Some metricType => Some (metricType, ast.Name Sel)
      | None => None
      end
    | _ => None
    end in
  match found with
  | None => ret tt
  | Some (metricType, methodName) =>
    let argNum := if HasSuffix methodName "Vec" then 2%Z else 1%Z in
    isStrict <- gets strict ;;
    if (length Args <? 1)%nat && isStrict then
      pos <- Position (ast.Pos (ast.CallExpr Fun Args)) ;;
      appendIssue (mkIssue pos ""
        (methodName ++ " should have at least " ++ Itoa argNum ++ " arguments"))
    else
      arg0 <- index Args 0 ;;
      optsPosition <- Position (ast.Pos arg0) ;;
      '(opts, help) <- parseOpts fuel arg0 ;;
      match opts with
      | None => ret tt
      | Some opts =>
        let metricName :=
          prometheus.BuildFQName (namespace opts) (subsystem opts) (name opts) in
        addMetric (dto.mkMetricFamily (Some metricName) help (Some metricType)) optsPosition
      end
  end.

(** [func (v *visitor) parseNewDescCallExpr(call *ast.CallExpr)], which
    returns two [*string]. *)
Definition parseNewDescCallExpr (fuel : nat) (Fun : ast.Node) (Args : list ast.Node)
    : M (option string * option string) :=
  isStrict <- gets strict ;;
  if negb (length Args =? 4)%nat && isStrict then
    pos <- Position (ast.Pos (ast.CallExpr Fun Args)) ;;
    appendIssue (mkIssue pos "" "NewDesc should have 4 args") ;;
    ret (None, None)
  else
    arg0 <- index Args 0 ;;
    '(name, ok) <- parseValue fuel "fqName" arg0 ;;
    if negb ok then ret (None, None)
    else
      arg1 <- index Args 1 ;;
      '(help, ok) <- parseValue fuel "help" arg1 ;;
      if negb ok then ret (None, None)
      else ret (Some name, Some help).

(** [func (v *visitor) parseConstMetricOpts(n ast.Node)], which returns two
    [*string]. *)
Definition parseConstMetricOpts (fuel : nat) (n : ast.Node) : M (option string * option string) :=
  match n with
  | ast.CallExpr Fun Args => parseNewDescCallExpr fuel Fun Args
  | ast.Ident stmt =>
    match ast.Obj stmt with
    | Some obj =>
      match Decl obj with
      | Some (ast.AssignStmt _ (ast.CallExpr Fun Args :: _)) => parseNewDescCallExpr fuel Fun Args
      | Some (ast.ValueSpec _ _ (ast.CallExpr Fun Args :: _)) => parseNewDescCallExpr fuel Fun Args
      | decl =>
        isStrict <- gets strict ;;
        (if isStrict then
           pos <- Position (ast.Pos n) ;;
           appendIssue (mkIssue pos ""
             ("parsing desc of type " ++ ast.DeclTypeName decl ++ " is not supported"))
         else ret tt) ;;
        ret (None, None)
      end
    | None => ret (None, None)
    end
  | _ => ret (None, None)
  end.

(** [func (v *visitor) parseSendMetricChanExpr(chExpr *ast.SendStmt) ast.Visitor].
    The first switch has no default arm: a callee that is neither an
    identifier nor a selector leaves [requiredArgNum] and [methodName] at
    their zero values. *)
Definition parseSendMetricChanExpr (fuel : nat) (Chan Value : ast.Node) : M unit :=
  match Value with
  | ast.CallExpr Fun Args =>
    let found :=
      match Fun with
      | ast.Ident stmt =>
        match mapGet constMetricArgs (ast.Name stmt) with
        | Some requiredArgNum => Some (requiredArgNum, ast.Name stmt)
        | None => None
        end
      | ast.SelectorExpr _ Sel =>
        match mapGet constMetricArgs (ast.Name Sel) with
        | Some requiredArgNum => Some (requiredArgNum, ast.Name Sel)
        | None => None
        end
      | _ => Some (0%Z, "")
      end in
    match found with
    | None => ret tt
    | Some (requiredArgNum, methodName) =>
      isStrict <- gets strict ;;
      if (Z.of_nat (length Args) <? requiredArgNum)%Z && isStrict then
        pos <- Position (ast.Pos Value) ;;
        appendIssue (mkIssue pos ""
          (methodName ++ " should have at least " ++ Itoa requiredArgNum ++ " arguments"))
      else
        arg0 <- index Args 0 ;;
        '(name, help) <- parseConstMetricOpts fuel arg0 ;;
        match name with
        | None => ret tt
        | Some _ =>
          metricType <-
            (if methodName =? "MustNewConstMetric" then
               arg1 <- index Args 1 ;;
               match arg1 with
               | ast.Ident t => ret (getConstMetricType (ast.Name t))
               | ast.SelectorExpr _ Sel => ret (getConstMetricType (ast.Name Sel))
               | _ => ret None
               end
             else if methodName =? "MustNewHistogram" then
               ret (Some dto.MetricType_HISTOGRAM)
             else if methodName =? "MustNewSummary" then
               ret (Some dto.MetricType_SUMMARY)
             else ret None) ;;
          pos <- Position (ast.Pos Value) ;;
          addMetric (dto.mkMetricFamily name help metricType) pos
        end
    end
  | _ => ret tt
  end.

(** [func (v *visitor) Visit(n ast.Node) ast.Visitor]; it always returns [v]. *)
Definition Visit (fuel : nat) (n : ast.Node) : M unit :=
  match n with
  | ast.CallExpr Fun Args => parseCallerExpr fuel Fun Args
  | ast.SendStmt Chan Value => parseSendMetricChanExpr fuel Chan Value
  | _ => ret tt
  end.

(** [ast.Walk(v, node)]: visit the node, then its children in source order.
    [Visit] never returns nil, so every child is walked.  Identifiers that
    are fields of a node ([Sel], [Names]), comments and the closing
    [v.Visit(nil)] are visited without effect and are left out. *)
Fixpoint Walk (fuel : nat) (node : ast.Node) {struct node} : M unit :=
  let walkList :=
    fix walkList (l : list ast.Node) : M unit :=
      match l with
      | [] => ret tt
      | c :: l => Walk fuel c ;; walkList l
      end in
  Visit fuel node ;;
  match node with
  | ast.BasicLit _ _ _ => ret tt
  | ast.Ident _ => ret tt
  | ast.BinaryExpr X _ Y => Walk fuel X ;; Walk fuel Y
  | ast.CallExpr Fun Args => Walk fuel Fun ;; walkList Args
  | ast.SelectorExpr X _ => Walk fuel X
  | ast.CompositeLit Type_ _ Elts =>
    match Type_ with
    | Some c => Walk fuel c
    | None => ret tt
    end ;; walkList Elts
  | ast.KeyValueExpr Key Value => Walk fuel Key ;; Walk fuel Value
  | ast.SendStmt Chan Value => Walk fuel Chan ;; Walk fuel Value
  | ast.AssignStmt Lhs Rhs => walkList Lhs ;; walkList Rhs
  | ast.ValueSpec _ Type_ Values =>
    match Type_ with
    | Some c => Walk fuel c
    | None => ret tt
    end ;; walkList Values
  | ast.Other _ _ children => walkList children
  end.

(** [for _, file := range files { ast.Walk(v, file) }]. *)
Fixpoint walkFiles (fuel : nat) (files : list ast.Node) : M unit :=
  match files with
  | [] => ret tt
  | file :: files => Walk fuel file ;; walkFiles fuel files
  end.

(** The body of the loop over [v.metrics] in [Run]. *)
Fixpoint lintMetrics (ms : list (dto.MetricFamily * token.Position)) : M unit :=
  match ms with
  | [] => ret tt
  | (metric, pos) :: ms =>
    match Lint metric with
    | None => raise LintError
    | Some problems =>
      appendIssues (map (fun p => mkIssue pos (promlint.Metric p) (promlint.Text p)) problems) ;;
      lintMetrics ms
    end
  end.

(** The [less] function handed to [sort.Slice]. *)
Definition issueLess (a b : Issue) : bool :=
  token.Position_String (Pos a) <? token.Position_String (Pos b).

(** [func Run(fs *token.FileSet, files []*ast.File, strict bool) []Issue]. *)
Definition Run (fuel : nat) (fs : token.Pos -> token.Position) (files : list ast.Node)
    (strict : bool) : result (list Issue) :=
  let v := mkVisitor fs [] [] strict in
  match (walkFiles fuel files ;;
         ms <- gets metrics ;;
         lintMetrics (rangeOrder ms)) v with
  | Ok (_, v) => Ok (sort.Slice issueLess (issues v))
  | Panic p => Panic p
  | OutOfFuel => OutOfFuel
  end.

End Visitor.

(** ** Sample inputs *)
Module Samples.

(** The double quote character, and a Go interpreted string literal as the
    parser stores it in [BasicLit.Value]: the text between double quotes. *)
Definition dquote : ascii := ascii_of_nat 34.
Definition quoted (s : string) : string :=
  String dquote s ++ String dquote EmptyString.

(** [strconv.Unquote] on interpreted literals without escape sequences, which
    is all the samples contain; any other text is answered with the error. *)
Fixpoint unquoteBody (s : string) : option string :=
  match s with
  | EmptyString => None
  | String c EmptyString => if (c =? dquote)%char then Some EmptyString else None
  | String c rest =>
    if (c =? dquote)%char || (c =? "\")%char || (c =? ascii_of_nat 10)%char then None
    else option_map (String c) (unquoteBody rest)
  end.

Definition unquotePlain (s : string) : option string :=
  match s with
  | String c rest => if (c =? dquote)%char then unquoteBody rest else None
  | EmptyString => None
  end.

(** A validator in the manner of promlint: a family without help text is a
    problem reported under the family's name. *)
Definition lintHelp (m : dto.MetricFamily) : option (list promlint.Problem) :=
  match dto.Help m with
  | Some (String _ _) => Some []
  | _ =>
    Some [promlint.mkProblem
            (match dto.Name m with Some n => n | None => "" end) "no help text"]
  end.

Definition inOrder (ms : list (dto.MetricFamily * token.Position)) := ms.

(** Another order in which the map of descriptors may be walked: last
    recorded first. *)
Definition lastFirst (ms : list (dto.MetricFamily * token.Position)) := rev ms.

Local Open Scope Z_scope.

(** Files are named [main.go]; position [p] is line [p], column 1. *)
Definition fset (p : token.Pos) : token.Position :=
  token.mkPosition "main.go" p p 1.

Definition noDecl : ast.Decls := fun _ => None.

Definition ident (p : token.Pos) (name : string) : ast.Node :=
  ast.Ident (ast.mkIdent p name None).
Definition identOf (p : token.Pos) (name : string) (obj : ast.Object) : ast.Node :=
  ast.Ident (ast.mkIdent p name (Some obj)).
Definition selector (p : token.Pos) (pkg name : string) : ast.Node :=
  ast.SelectorExpr (ident p pkg) (ast.mkIdent (p + 1) name None).
Definition str (p : token.Pos) (s : string) : ast.Node :=
  ast.BasicLit p token.STRING (quoted s).
Definition field (p : token.Pos) (key : string) (value : ast.Node) : ast.Node :=
  ast.KeyValueExpr (ident p key) value.
Definition optsLit (p : token.Pos) (type : string) (elts : list ast.Node) : ast.Node :=
  ast.CompositeLit (Some (selector p "prometheus" type)) (p + 2) elts.
Definition file (decls : list ast.Node) : ast.Node :=
  ast.Other "*ast.File" 1 decls.

(** [prometheus.NewCounterVec(prometheus.CounterOpts{Name: "foo_total", Help: "bar"})]:
    a Vec constructor called with one argument. *)
Definition vecOneArg : ast.Node :=
  ast.CallExpr (selector 10 "prometheus" "NewCounterVec")
    [optsLit 20 "CounterOpts" [field 30 "Name" (str 31 "foo_total"); field 40 "Help" (str 41 "bar")]].

(** [prometheus.NewCounter()]. *)
Definition counterNoArgs : ast.Node :=
  ast.CallExpr (selector 10 "prometheus" "NewCounter") [].

(** [prometheus.NewCounterVec()]. *)
Definition vecNoArgs : ast.Node :=
  ast.CallExpr (selector 10 "prometheus" "NewCounterVec") [].

(** [ch <- prometheus.MustNewConstMetric()]. *)
Definition sendNoArgs : ast.Node :=
  ast.SendStmt (ident 5 "ch") (ast.CallExpr (selector 10 "prometheus" "MustNewConstMetric") []).

(** ["a" + "b"]. *)
Definition aPlusB : ast.Node :=
  ast.BinaryExpr (str 50 "a") token.ADD (str 52 "b").

(** Object 0 is [x], declared by the statement [x := "a" + "b"]. *)
Definition declAssign : ast.Decls :=
  fun o => match o with
           | O => Some (ast.AssignStmt [ident 49 "x"] [aPlusB])
           | _ => None
           end.

(** Object 0 is [x], declared by [var x = "a" + "b"]. *)
Definition declVar : ast.Decls :=
  fun o => match o with
           | O => Some (ast.ValueSpec [ast.mkIdent 49 "x" (Some O)] None [aPlusB])
           | _ => None
           end.

(** Object 0 is [x], declared by [var x = x]. *)
Definition declCycle : ast.Decls :=
  fun o => match o with
           | O => Some (ast.ValueSpec [ast.mkIdent 49 "x" (Some O)] None [identOf 51 "x" O])
           | _ => None
           end.

(** Object 0 is [x], declared by [var x = 1 + x]. *)
Definition onePlusX : ast.Node :=
  ast.BinaryExpr (ast.BasicLit 51 token.INT "1") token.ADD (identOf 53 "x" O).
Definition declOnePlusX : ast.Decls :=
  fun o => match o with
           | O => Some (ast.ValueSpec [ast.mkIdent 49 "x" (Some O)] None [onePlusX])
           | _ => None
           end.

(** Object 0 is [x], declared by [var x = y + "_total"], and object 1 is
    [y], declared by [var y = "requests"]. *)
Definition yTotal : ast.Node :=
  ast.BinaryExpr (identOf 51 "y" 1%nat) token.ADD (str 53 "_total").
Definition declChain : ast.Decls :=
  fun o => match o with
           | O => Some (ast.ValueSpec [ast.mkIdent 49 "x" (Some O)] None [yTotal])
           | 1%nat => Some (ast.ValueSpec [ast.mkIdent 59 "y" (Some 1%nat)] None [str 61 "requests"])
           | _ => None
           end.

(** Objects 0 and 1 are [x] and [y], declared together by
    [var x, y = y + "_total", "requests"]. *)
Definition declTogether : ast.Decls :=
  fun o => match o with
           | O | 1%nat =>
             Some (ast.ValueSpec [ast.mkIdent 49 "x" (Some O); ast.mkIdent 50 "y" (Some 1%nat)]
                     None [yTotal; str 61 "requests"])
           | _ => None
           end.

(** Object 0 is [x], declared by [var x = "a" + name()]. *)
Definition aPlusCall : ast.Node :=
  ast.BinaryExpr (str 50 "a") token.ADD (ast.CallExpr (ident 52 "name") []).
Definition declVarCall : ast.Decls :=
  fun o => match o with
           | O => Some (ast.ValueSpec [ast.mkIdent 49 "x" (Some O)] None [aPlusCall])
           | _ => None
           end.

(** [prometheus.NewDesc("my_metric", "help text", nil, nil)]. *)
Definition newDesc : ast.Node :=
  ast.CallExpr (selector 60 "prometheus" "NewDesc")
    [str 62 "my_metric"; str 63 "help text"; ident 64 "nil"; ident 65 "nil"].

(** Object 1 is [desc], declared by [desc := prometheus.NewDesc(...)]. *)
Definition declDesc : ast.Decls :=
  fun o => match o with
           | 1%nat => Some (ast.AssignStmt [ident 59 "desc"] [newDesc])
           | _ => None
           end.

(** [ch <- MustNewConstMetric(desc, CounterValue, 1.0)], the package being
    imported under the name [.]. *)
Definition sendCounter : ast.Node :=
  ast.SendStmt (ident 70 "ch")
    (ast.CallExpr (ident 71 "MustNewConstMetric")
       [identOf 72 "desc" 1%nat; ident 73 "CounterValue"; ast.BasicLit 74 token.FLOAT "1.0"]).

(** [ch <- prometheus.MustNewConstMetric(desc, prometheus.GaugeValue, 1.0)]. *)
Definition sendGauge : ast.Node :=
  ast.SendStmt (ident 70 "ch")
    (ast.CallExpr (selector 71 "prometheus" "MustNewConstMetric")
       [identOf 72 "desc" 1%nat; selector 73 "prometheus" "GaugeValue";
        ast.BasicLit 74 token.FLOAT "1.0"]).

(** [ch <- prometheus.MustNewConstMetric(desc, prometheus.UntypedValue, 1.0)]. *)
Definition sendUntyped : ast.Node :=
  ast.SendStmt (ident 70 "ch")
    (ast.CallExpr (selector 71 "prometheus" "MustNewConstMetric")
       [identOf 72 "desc" 1%nat; selector 73 "prometheus" "UntypedValue";
        ast.BasicLit 74 token.FLOAT "1.0"]).

(** [ch <- prometheus.MustNewHistogram(desc, count, sum, buckets)] and
    [ch <- prometheus.MustNewSummary(desc, count, sum, quantiles)], under the
    names the table [constMetricArgs] gives the two variants. *)
Definition sendHistogram : ast.Node :=
  ast.SendStmt (ident 70 "ch")
    (ast.CallExpr (selector 71 "prometheus" "MustNewHistogram")
       [identOf 72 "desc" 1%nat; ident 73 "count"; ident 74 "sum"; ident 75 "buckets"]).
Definition sendSummary : ast.Node :=
  ast.SendStmt (ident 70 "ch")
    (ast.CallExpr (selector 71 "prometheus" "MustNewSummary")
       [identOf 72 "desc" 1%nat; ident 73 "count"; ident 74 "sum"; ident 75 "quantiles"]).

(** [ch <- prometheus.MustNewConstMetric(desc, valueType(), 1.0)]. *)
Definition sendCallKind : ast.Node :=
  ast.SendStmt (ident 70 "ch")
    (ast.CallExpr (selector 71 "prometheus" "MustNewConstMetric")
       [identOf 72 "desc" 1%nat; ast.CallExpr (ident 73 "valueType") [];
        ast.BasicLit 74 token.FLOAT "1.0"]).

(** [ch <- prometheus.MustNewConstMetric(desc, kinds[i], 1.0)]. *)
Definition sendIndexKind : ast.Node :=
  ast.SendStmt (ident 70 "ch")
    (ast.CallExpr (selector 71 "prometheus" "MustNewConstMetric")
       [identOf 72 "desc" 1%nat;
        ast.Other "*ast.IndexExpr" 73 [ident 73 "kinds"; ident 75 "i"];
        ast.BasicLit 74 token.FLOAT "1.0"]).

(** [prometheus.NewCounter(prometheus.CounterOpts{Namespace: "app", Help: "requests"})]:
    the Name field is left at its zero value. *)
Definition counterNoName : ast.Node :=
  ast.CallExpr (selector 10 "prometheus" "NewCounter")
    [optsLit 20 "CounterOpts" [field 30 "Namespace" (str 31 "app"); field 40 "Help" (str 41 "requests")]].

(** [prometheus.NewCounter(prometheus.CounterOpts{Name: metricName, Help: "requests"})],
    where [metricName] is declared in another file and left unresolved by
    the parser. *)
Definition counterUnresolvedName : ast.Node :=
  ast.CallExpr (selector 10 "prometheus" "NewCounter")
    [optsLit 20 "CounterOpts" [field 30 "Name" (ident 31 "metricName"); field 40 "Help" (str 41 "requests")]].

(** [prometheus.NewCounter(prometheus.CounterOpts{Name: name(), Help: "requests"})]. *)
Definition counterCallName : ast.Node :=
  ast.CallExpr (selector 10 "prometheus" "NewCounter")
    [optsLit 20 "CounterOpts"
       [field 30 "Name" (ast.CallExpr (ident 31 "name") []); field 40 "Help" (str 41 "requests")]].

(** [prometheus.NewGauge(prometheus.GaugeOpts{Name: "queue_length"})] and
    [prometheus.NewCounter(prometheus.CounterOpts{Name: "requests_total"})],
    the second one earlier in the file, both without help text. *)
Definition gaugeNoHelp : ast.Node :=
  ast.CallExpr (selector 80 "prometheus" "NewGauge")
    [optsLit 90 "GaugeOpts" [field 92 "Name" (str 93 "queue_length")]].
Definition counterNoHelp : ast.Node :=
  ast.CallExpr (selector 10 "prometheus" "NewCounter")
    [optsLit 20 "CounterOpts" [field 30 "Name" (str 31 "requests_total")]].

(** The fields of
    [prometheus.CounterOpts{Namespace: "app", Subsystem: "http", Name: "requests" + "_total", Help: "Requests served."}]. *)
Definition fullFields : list ast.Node :=
  [ field 30 "Namespace" (str 31 "app");
    field 32 "Subsystem" (str 33 "http");
    field 34 "Name" (ast.BinaryExpr (str 35 "requests") token.ADD (str 36 "_total"));
    field 38 "Help" (str 39 "Requests served.") ].

(** The fields of [prometheus.CounterOpts{Name: name(), Help: "requests"}]
    after the first one. *)
Definition helpField : list ast.Node :=
  [field 40 "Help" (str 41 "requests")].

(** A file with the three calls [gaugeNoHelp], [counterNoHelp] and
    [counterCallName], and the issues a strict run reports for it. *)
Definition threeCalls : list ast.Node :=
  [file [gaugeNoHelp; counterNoHelp; counterCallName]].

Definition threeCallsIssues : list Issue :=
  [ mkIssue (fset 20) "requests_total" "no help text";
    mkIssue (fset 31) "" "parsing field Name with type *ast.CallExpr is not supported";
    mkIssue (fset 90) "queue_length" "no help text" ].

(** [ch <- handlers[i]()]: the callee is an index expression. *)
Definition sendAnonymous : ast.Node :=
  ast.SendStmt (ident 70 "ch")
    (ast.CallExpr (ast.Other "*ast.IndexExpr" 71 [ident 71 "handlers"; ident 72 "i"]) []).

(** The arguments of [prometheus.NewDesc("my_metric", "help text", nil)]. *)
Definition threeDescArgs : list ast.Node :=
  [str 62 "my_metric"; str 63 "help text"; ident 64 "nil"].

(** Object 2 is [opts], declared by
    [var opts = prometheus.CounterOpts{Name: "requests_total", Help: "requests"}],
    and [prometheus.NewCounter(opts)]. *)
Definition declVarOpts : ast.Decls :=
  fun o => match o with
           | 2%nat =>
             Some (ast.ValueSpec [ast.mkIdent 19 "opts" (Some 2%nat)] None
                     [optsLit 20 "CounterOpts"
                        [field 30 "Name" (str 31 "requests_total");
                         field 40 "Help" (str 41 "requests")]])
           | _ => None
           end.
Definition counterVarOpts : list ast.Node := [identOf 12 "opts" 2%nat].

(** The issues of a lenient run over [threeCalls]. *)
Definition threeCallsLenientIssues : list Issue :=
  [ mkIssue (fset 20) "requests_total" "no help text";
    mkIssue (fset 90) "queue_length" "no help text" ].

(** What the traversal of [threeCalls] leaves in a strict visitor. *)
Definition threeCallsVisitor : visitor :=
  mkVisitor fset
    [ (dto.mkMetricFamily (Some "queue_length") None (Some dto.MetricType_GAUGE), fset 90);
      (dto.mkMetricFamily (Some "requests_total") None (Some dto.MetricType_COUNTER), fset 20) ]
    [ mkIssue (fset 31) "" "parsing field Name with type *ast.CallExpr is not supported" ]
    true.

End Samples.

(** ** Vocabulary of the properties *)

(** The name a call is made under: the identifier itself, or the selected
    name of a selector expression. *)
Definition callee (Fun : ast.Node) : option string :=
  match Fun with
  | ast.Ident stmt => Some (ast.Name stmt)
  | ast.SelectorExpr _ Sel => Some (ast.Name Sel)
  | _ => None
  end.

(** The elements of the struct literal a constructor is configured with:
    its first argument, or what the identifier in that place was assigned. *)
Definition optionsLiteral (Decl : ast.Decls) (arg0 : ast.Node) : option (list ast.Node) :=
  match arg0 with
  | ast.CompositeLit _ _ Elts => Some Elts
  | ast.Ident stmt =>
    match ast.Obj stmt with
    | Some obj =>
      match Decl obj with
      | Some (ast.AssignStmt _ (ast.CompositeLit _ _ Elts :: _)) => Some Elts
      | _ => None
      end
    | None => None
    end
  | _ => None
  end.

(** The underscore-join of the spec: the non-empty segments, in order,
    separated by [sep]. *)
Definition joinNonEmpty (sep : string) (segments : list string) : string :=
  String.concat sep (filter (fun s => negb (s =? "")) segments).

(** A key-value element of a composite literal whose key is allow-listed. *)
Definition optsField (elt : ast.Node) : option (string * ast.Node) :=
  match elt with
  | ast.KeyValueExpr (ast.Ident object) Value =>
    match mapGet validOptsFields (ast.Name object) with
    | Some _ => Some (ast.Name object, Value)
    | None => None
    end
  | _ => None
  end.

(** The visitor a resolution is tried on: no file, nothing recorded, lenient
    mode. *)
Definition blankVisitor : visitor :=
  mkVisitor (fun _ => token.mkPosition "" 0 0 0) [] [] false.

(** The string [parseValue] finds for the expression [n], when it finds
    one. *)
Definition resolvesTo (Unquote : string -> option string) (Decl : ast.Decls)
    (fuel : nat) (n : ast.Node) : option string :=
  match parseValue Unquote Decl fuel "" n blankVisitor with
  | Ok ((s, true), _) => Some s
  | _ => None
  end.

(** Every allow-listed field of the literal has a value that resolves to a
    string. *)
Definition resolvedFields (Unquote : string -> option string) (Decl : ast.Decls)
    (fuel : nat) (Elts : list ast.Node) : Prop :=
  forall elt key Value, In elt Elts -> optsField elt = Some (key, Value) ->
    exists s, resolvesTo Unquote Decl fuel Value = Some s.

(** The text of the last field named [key] in the literal, or [absent] when
    there is none. *)
Fixpoint fieldText (Unquote : string -> option string) (Decl : ast.Decls) (fuel : nat)
    (key : string) (Elts : list ast.Node) (absent : option string) : option string :=
  match Elts with
  | [] => absent
  | elt :: Elts =>
    match optsField elt with
    | Some (key', Value) =>
      if key' =? key
      then fieldText Unquote Decl fuel key Elts (resolvesTo Unquote Decl fuel Value)
      else fieldText Unquote Decl fuel key Elts absent
    | None => fieldText Unquote Decl fuel key Elts absent
    end
  end.

Definition orEmpty (s : option string) : string :=
  match s with
  | Some s => s
  | None => ""
  end.

(** The node kinds outside the four that [parseValue] handles. *)
Definition unsupportedKind (n : ast.Node) : bool :=
  match n with
  | ast.BasicLit _ _ _ | ast.Ident _ | ast.ValueSpec _ _ _ | ast.BinaryExpr _ _ _ => false
  | _ => true
  end.

(** The shapes of the four handled kinds on which [parseValue] gives up at
    once: a literal that is no string, an identifier without a value-spec
    behind it, a value-spec without values, an operator other than [+]. *)
Definition failsSilently (Decl : ast.Decls) (n : ast.Node) : bool :=
  match n with
  | ast.BasicLit _ Kind _ => negb (token.Token_eqb Kind token.STRING)
  | ast.Ident t =>
    match ast.Obj t with
    | None => true
    | Some obj =>
      match Decl obj with
      | Some (ast.ValueSpec _ _ _) => false
      | _ => true
      end
    end
  | ast.ValueSpec _ _ [] => true
  | ast.BinaryExpr _ Op _ => negb (token.Token_eqb Op token.ADD)
  | _ => false
  end.

(** The node at which a resolution gives up: the first one, in the order the
    resolver goes through the expression (into the declaration of an
    identifier, through the operands of a [+] from left to right), that is
    neither a string literal nor entered any further.  [None] when there is
    no such node. *)
Fixpoint stopsAt (Decl : ast.Decls) (fuel : nat) (n : ast.Node) : option ast.Node :=
  match fuel with
  | O => None
  | S fuel =>
    match n with
    | ast.BasicLit _ Kind _ => if token.Token_eqb Kind token.STRING then None else Some n
    | ast.Ident t =>
      match ast.Obj t with
      | None => Some n
      | Some obj =>
        match Decl obj with
        | Some (ast.ValueSpec _ _ _ as vs) => stopsAt Decl fuel vs
        | _ => Some n
        end
      end
    | ast.ValueSpec _ _ [] => Some n
    | ast.ValueSpec _ _ (v0 :: _) => stopsAt Decl fuel v0
    | ast.BinaryExpr X Op Y =>
      if token.Token_eqb Op token.ADD then
        match stopsAt Decl fuel X with
        | Some m => Some m
        | None => stopsAt Decl fuel Y
        end
      else Some n
    | _ => Some n
    end
  end.

(** The identifiers (their objects) a string expression is put together
    from: the expression itself when it is an identifier, the operands of a
    [+], and so on.  A value-spec does not stand for an expression in a parsed
    file; it is given the identifiers of all its values. *)
Fixpoint operands (n : ast.Node) : list ast.Object :=
  match n with
  | ast.Ident t =>
    match ast.Obj t with
    | Some obj => [obj]
    | None => []
    end
  | ast.BinaryExpr X Op Y =>
    if token.Token_eqb Op token.ADD then (operands X ++ operands Y)%list else []
  | ast.ValueSpec _ _ Values => flat_map operands Values
  | _ => []
  end.

(** The initializer of the object [o] in a value-spec [var Names = Values]:
    the value at the place of the name that declares [o]. *)
Fixpoint initializer (o : ast.Object) (Names : list ast.IdentData) (Values : list ast.Node)
    : option ast.Node :=
  match Names, Values with
  | name :: Names, init :: Values =>
    if match ast.Obj name with
       | Some o' => Nat.eqb o' o
       | None => false
       end
    then Some init
    else initializer o Names Values
  | _, _ => None
  end.

(** [declaredFrom Decl o' o]: the identifier [o] is declared by a value-spec,
    and its initializer there is put together from the identifier [o'].  A
    chain of identifier declarations is a chain of this relation. *)
Definition declaredFrom (Decl : ast.Decls) (o' o : ast.Object) : Prop :=
  exists Names Type_ Values init,
    Decl o = Some (ast.ValueSpec Names Type_ Values) /\
    initializer o Names Values = Some init /\
    In o' (operands init).

(** The identifier [o], when a value-spec declares it, is the first of the
    names of that value-spec. *)
Definition firstName (Decl : ast.Decls) (o : ast.Object) : Prop :=
  forall Names Type_ Values,
    Decl o = Some (ast.ValueSpec Names Type_ Values) ->
    exists name rest, Names = name :: rest /\ ast.Obj name = Some o.

(** Every chain of identifier declarations that starts at [o] is finite, so
    none of them comes back to an identifier it went through, and each
    identifier on them is the first name of its value-spec. *)
Inductive finiteChain (Decl : ast.Decls) (o : ast.Object) : Prop :=
| finiteChain_intro :
    firstName Decl o ->
    (forall o', declaredFrom Decl o' o -> finiteChain Decl o') ->
    finiteChain Decl o.

(** A call of [parseValue] that came back: with a string, with the failure
    [("", false)], or with the panic of [mustUnquote]. *)
Definition returned (r : result ((string * bool) * visitor)) : Prop :=
  match r with
  | Ok ((s, ok), _) => ok = true \/ s = ""
  | Panic p => p = UnquoteError
  | OutOfFuel => False
  end.

(** What a step of the traversal may do to the visitor: the file set and the
    mode stay, and the issues it adds have an empty metric name. *)
Definition structural (v v' : visitor) : Prop :=
  fs v' = fs v /\ strict v' = strict v /\
  exists added, issues v' = (issues v ++ added)%list /\ Forall (fun i => Metric i = "") added.

(** The descriptors are left as they were. *)
Definition sameMetrics (v v' : visitor) : Prop :=
  metrics v' = metrics v.

(** The issue [parseValue] adds for a node of unsupported kind. *)
Definition unsupportedIssue (v : visitor) (object : string) (n : ast.Node) : Issue :=
  mkIssue (fs v (ast.Pos n)) ""
    ("parsing field " ++ object ++ " with type " ++ ast.TypeName n ++ " is not supported").

(** A computation on the visitor keeps the relation [R] between the visitor
    it starts from and the one it returns. *)
Definition preserves {A : Type} (R : visitor -> visitor -> Prop) (c : M A) : Prop :=
  forall v a v', c v = Ok (a, v') -> R v v'.

(** The issue that wraps a problem of the validator found at [pos]. *)
Definition wrapProblem (pos : token.Position) (p : promlint.Problem) : Issue :=
  mkIssue pos (promlint.Metric p) (promlint.Text p).

(** An issue of [lintMetrics]: a problem the validator reported for one of
    the descriptors [ms], at the position recorded for it. *)
Definition wraps (Lint : dto.MetricFamily -> option (list promlint.Problem))
    (ms : list (dto.MetricFamily * token.Position)) (i : Issue) : Prop :=
  exists m pos problems p,
    In (m, pos) ms /\ Lint m = Some problems /\ In p problems /\ i = wrapProblem pos p.

(** The ordering of issues by position: the formatted positions compared as
    text. *)
Definition positionLeb (a b : Issue) : bool :=
  token.Position_String (Pos a) <=? token.Position_String (Pos b).

(** ** Vocabulary of the further properties *)

(** A lenient visitor stays lenient and gets no issue. *)
Definition lenientSame (v v' : visitor) : Prop :=
  strict v = false -> issues v' = issues v /\ strict v' = false.

(** The descriptors recorded so far are kept, in place, and the ones added
    behind them have a name. *)
Definition recordsNamed (v v' : visitor) : Prop :=
  exists added,
    metrics v' = (metrics v ++ added)%list /\
    Forall (fun e => dto.Name (fst e) <> None) added.

(** The nodes of a tree in the order [ast.Walk] visits them: a node, then
    its children from left to right, each with its own subtree. *)
Fixpoint preorder (node : ast.Node) : list ast.Node :=
  let all :=
    fix all (l : list ast.Node) : list ast.Node :=
      match l with
      | [] => []
      | c :: l => (preorder c ++ all l)%list
      end in
  node ::
  match node with
  | ast.BasicLit _ _ _ => []
  | ast.Ident _ => []
  | ast.BinaryExpr X _ Y => (preorder X ++ preorder Y)%list
  | ast.CallExpr Fun Args => (preorder Fun ++ all Args)%list
  | ast.SelectorExpr X _ => preorder X
  | ast.CompositeLit Type_ _ Elts =>
    (match Type_ with
     | Some c => preorder c
     | None => []
     end ++ all Elts)%list
  | ast.KeyValueExpr Key Value => (preorder Key ++ preorder Value)%list
  | ast.SendStmt Chan Value => (preorder Chan ++ preorder Value)%list
  | ast.AssignStmt Lhs Rhs => (all Lhs ++ all Rhs)%list
  | ast.ValueSpec _ Type_ Values =>
    (match Type_ with
     | Some c => preorder c
     | None => []
     end ++ all Values)%list
  | ast.Other _ _ children => all children
  end.

(** [Visit] on each node of a list, one after the other. *)
Fixpoint visitAll (Unquote : string -> option string) (Decl : ast.Decls) (fuel : nat)
    (nodes : list ast.Node) : M unit :=
  match nodes with
  | [] => ret tt
  | n :: nodes => Visit Unquote Decl fuel n ;; visitAll Unquote Decl fuel nodes
  end.

(** The issues the validator's problems become for the descriptors [ms], or
    [None] when the validator rejects one of them. *)
Fixpoint lintIssues (Lint : dto.MetricFamily -> option (list promlint.Problem))
    (ms : list (dto.MetricFamily * token.Position)) : option (list Issue) :=
  match ms with
  | [] => Some []
  | (m, pos) :: ms =>
    match Lint m, lintIssues Lint ms with
    | Some problems, Some rest => Some (map (wrapProblem pos) problems ++ rest)%list
    | _, _ => None
    end
  end.

(** The call that builds the descriptor a const-metric function is given:
    its first argument, or the first value the identifier in that place was
    assigned or declared with. *)
Definition descCall (Decl : ast.Decls) (arg0 : ast.Node) : option (ast.Node * list ast.Node) :=
  match arg0 with
  | ast.CallExpr Fun Args => Some (Fun, Args)
  | ast.Ident stmt =>
    match ast.Obj stmt with
    | Some obj =>
      match Decl obj with
      | Some (ast.AssignStmt _ (ast.CallExpr Fun Args :: _)) => Some (Fun, Args)
      | Some (ast.ValueSpec _ _ (ast.CallExpr Fun Args :: _)) => Some (Fun, Args)
      | _ => None
      end
    | None => None
    end
  | _ => None
  end.

(** The kind a const-metric function gives its descriptor, from its name
    and its second argument. *)
Definition constKind (methodName : string) (arg1 : ast.Node) : option dto.MetricType :=
  if methodName =? "MustNewConstMetric" then
    match callee arg1 with
    | Some valueType => getConstMetricType valueType
    | None => None
    end
  else if methodName =? "MustNewHistogram" then Some dto.MetricType_HISTOGRAM
  else if methodName =? "MustNewSummary" then Some dto.MetricType_SUMMARY
  else None.

(** The formatted position of an issue, the key [Run] sorts by. *)
Definition positionKey (i : Issue) : string := token.Position_String (Pos i).

(** An allow-listed field. *)
Definition isOptsField (elt : ast.Node) : bool :=
  match optsField elt with
  | Some _ => true
  | None => false
  end.

(** * Properties *)

(** ** Comparison of strings *)

Lemma string_compare_OT (s1 s2 : string) :
  String.compare s1 s2 = String_as_OT.compare s1 s2.
Proof.
  revert s2. induction s1 as [|c1 s1 IH]; intros [|c2 s2]; simpl; try reflexivity.
Qed.

Lemma string_ltb_lt (s1 s2 : string) :
  (s1 <? s2) = true <-> String_as_OT.lt s1 s2.
Proof.
  unfold String.ltb, String_as_OT.lt. rewrite string_compare_OT.
  destruct (String_as_OT.compare s1 s2); split; congruence.
Qed.

Lemma string_ltb_asym (s1 s2 : string) :
  (s1 <? s2) = true -> (s2 <? s1) = false.
Proof.
  unfold String.ltb. rewrite (String.compare_antisym s1 s2).
  destruct (String.compare s2 s1); simpl; congruence.
Qed.

Lemma string_ltb_leb (s1 s2 : string) :
  (s2 <? s1) = false <-> (s1 <=? s2) = true.
Proof.
  unfold String.ltb, String.leb. rewrite (String.compare_antisym s1 s2).
  destruct (String.compare s2 s1); simpl; split; congruence.
Qed.

Lemma string_not_ltb_trans (s1 s2 s3 : string) :
  (s2 <? s1) = false -> (s3 <? s2) = false -> (s3 <? s1) = false.
Proof.
  intros H12 H23.
  destruct (s3 <? s1) eqn:H31; [exfalso | reflexivity].
  apply string_ltb_lt in H31.
  destruct (String_as_OT.compare_spec s3 s2) as [E | L | L].
  - change (s3 = s2) in E. subst s3. apply string_ltb_lt in H31. congruence.
  - apply string_ltb_lt in L. congruence.
  - assert (L' : String_as_OT.lt s2 s1)
      by (eapply (@RelationClasses.StrictOrder_Transitive _ _ String_as_OT.lt_strorder);
          eassumption).
    apply string_ltb_lt in L'. congruence.
Qed.

(** ** Sorting *)

Section SliceFacts.
Context {A : Type}.
Variable less : A -> A -> bool.
Hypothesis less_asym : forall a b, less a b = true -> less b a = false.
Hypothesis not_less_trans :
  forall a b c, less b a = false -> less c b = false -> less c a = false.

(** [a] may stand before [b]. *)
Let le (a b : A) : Prop := less b a = false.
(** [a] may stand after [b]. *)
Let ge (a b : A) : Prop := less a b = false.

Lemma sink_perm (x : A) (sorted : list A) :
  Permutation (sort.sink less x sorted) (x :: sorted).
Proof.
  induction sorted as [|y rest IH]; simpl.
  - apply Permutation_refl.
  - destruct (less x y).
    + eapply perm_trans; [apply perm_skip, IH | apply perm_swap].
    + apply Permutation_refl.
Qed.

Lemma fold_sink_perm (l sorted : list A) :
  Permutation (fold_left (fun s e => sort.sink less e s) l sorted) (rev l ++ sorted)%list.
Proof.
  revert sorted. induction l as [|x l IH]; intros sorted; simpl.
  - apply Permutation_refl.
  - eapply perm_trans; [apply IH |].
    rewrite <- app_assoc. simpl.
    apply Permutation_app_head, sink_perm.
Qed.

Lemma Slice_perm (l : list A) : Permutation (sort.Slice less l) l.
Proof.
  unfold sort.Slice.
  eapply perm_trans; [apply Permutation_sym, Permutation_rev |].
  eapply perm_trans; [apply fold_sink_perm |].
  rewrite app_nil_r. apply Permutation_sym, Permutation_rev.
Qed.

Lemma sink_Forall (P : A -> Prop) (x : A) (sorted : list A) :
  P x -> Forall P sorted -> Forall P (sort.sink less x sorted).
Proof.
  intros Hx Hs. induction Hs as [|y rest Hy Hrest IH]; simpl.
  - constructor; [assumption | constructor].
  - destruct (less x y); repeat constructor; assumption.
Qed.

Lemma sink_sorted (x : A) (sorted : list A) :
  StronglySorted ge sorted -> StronglySorted ge (sort.sink less x sorted).
Proof.
  induction 1 as [|y rest Hrest IH Hy]; simpl.
  - constructor; constructor.
  - destruct (less x y) eqn:Hxy.
    + constructor; [assumption |].
      apply sink_Forall; [| assumption].
      unfold ge. apply less_asym. assumption.
    + constructor; [constructor; assumption |].
      constructor; [exact Hxy |].
      eapply Forall_impl; [| exact Hy].
      intros z Hz. unfold ge in *. eapply not_less_trans; eassumption.
Qed.

Lemma fold_sink_sorted (l sorted : list A) :
  StronglySorted ge sorted ->
  StronglySorted ge (fold_left (fun s e => sort.sink less e s) l sorted).
Proof.
  revert sorted. induction l as [|x l IH]; intros sorted Hs; simpl.
  - assumption.
  - apply IH, sink_sorted, Hs.
Qed.

Lemma StronglySorted_snoc (R : A -> A -> Prop) (l : list A) (x : A) :
  StronglySorted R l -> Forall (fun y => R y x) l -> StronglySorted R (l ++ [x]).
Proof.
  induction 1 as [|y l Hl IH Hy]; intros Hx; simpl.
  - constructor; constructor.
  - inversion Hx as [|? ? Hyx Hlx]; subst.
    constructor; [apply IH; assumption |].
    apply Forall_app. split; [assumption | constructor; [assumption | constructor]].
Qed.

Lemma StronglySorted_rev_ge (l : list A) :
  StronglySorted ge l -> StronglySorted le (rev l).
Proof.
  induction 1 as [|y l Hl IH Hy]; simpl.
  - constructor.
  - apply StronglySorted_snoc; [assumption |].
    apply Forall_rev. exact Hy.
Qed.

Lemma Slice_sorted (l : list A) : StronglySorted le (sort.Slice less l).
Proof.
  unfold sort.Slice. apply StronglySorted_rev_ge, fold_sink_sorted. constructor.
Qed.

Lemma StronglySorted_app_inv (R : A -> A -> Prop) (l1 l2 : list A) :
  StronglySorted R (l1 ++ l2) ->
  StronglySorted R l2 /\ forall a b, In a l1 -> In b l2 -> R a b.
Proof.
  induction l1 as [|x l1 IH]; simpl; intros H.
  - split; [assumption | intros a b []].
  - inversion H as [|? ? Hs Hx]; subst.
    destruct (IH Hs) as [H2 H12]. split; [assumption |].
    intros a b [<- | Ha] Hb.
    + rewrite Forall_forall in Hx. apply Hx, in_or_app. right. assumption.
    + apply H12; assumption.
Qed.

Lemma fold_sink_fixed (l sorted : list A) :
  StronglySorted le (rev sorted ++ l) ->
  fold_left (fun s e => sort.sink less e s) l sorted = (rev l ++ sorted)%list.
Proof.
  revert sorted. induction l as [|x l IH]; intros sorted Hs; simpl.
  - reflexivity.
  - assert (Hx : sort.sink less x sorted = x :: sorted).
    { destruct sorted as [|y rest]; [reflexivity |]. simpl.
      destruct (StronglySorted_app_inv _ _ _ Hs) as [_ H12].
      assert (Hyx : le y x).
      { apply H12; [| left; reflexivity].
        apply in_rev. rewrite rev_involutive. left. reflexivity. }
      unfold le in Hyx. rewrite Hyx. reflexivity. }
    rewrite Hx, IH.
    + rewrite <- app_assoc. reflexivity.
    + simpl. rewrite <- app_assoc. exact Hs.
Qed.

Lemma Slice_fixed (l : list A) : StronglySorted le l -> sort.Slice less l = l.
Proof.
  intros Hs. unfold sort.Slice.
  rewrite fold_sink_fixed by exact Hs.
  rewrite app_nil_r. apply rev_involutive.
Qed.

End SliceFacts.

(** ** Induction on syntax trees *)

Section NodeInduction.
Variable P : ast.Node -> Prop.
Hypothesis HBasicLit : forall p k s, P (ast.BasicLit p k s).
Hypothesis HIdent : forall i, P (ast.Ident i).
Hypothesis HBinaryExpr : forall X Op Y, P X -> P Y -> P (ast.BinaryExpr X Op Y).
Hypothesis HCallExpr : forall Fun Args, P Fun -> Forall P Args -> P (ast.CallExpr Fun Args).
Hypothesis HSelectorExpr : forall X Sel, P X -> P (ast.SelectorExpr X Sel).
Hypothesis HCompositeLit : forall Type_ Lbrace Elts,
  (forall t, Type_ = Some t -> P t) -> Forall P Elts -> P (ast.CompositeLit Type_ Lbrace Elts).
Hypothesis HKeyValueExpr : forall Key Value, P Key -> P Value -> P (ast.KeyValueExpr Key Value).
Hypothesis HSendStmt : forall Chan Value, P Chan -> P Value -> P (ast.SendStmt Chan Value).
Hypothesis HAssignStmt : forall Lhs Rhs, Forall P Lhs -> Forall P Rhs -> P (ast.AssignStmt Lhs Rhs).
Hypothesis HValueSpec : forall Names Type_ Values,
  (forall t, Type_ = Some t -> P t) -> Forall P Values -> P (ast.ValueSpec Names Type_ Values).
Hypothesis HOther : forall T p children, Forall P children -> P (ast.Other T p children).

Fixpoint Node_induction (n : ast.Node) : P n :=
  let all :=
    fix all (l : list ast.Node) : Forall P l :=
      match l with
      | [] => Forall_nil P
      | c :: l => Forall_cons c (Node_induction c) (all l)
      end in
  match n with
  | ast.BasicLit p k s => HBasicLit p k s
  | ast.Ident i => HIdent i
  | ast.BinaryExpr X Op Y => HBinaryExpr X Op Y (Node_induction X) (Node_induction Y)
  | ast.CallExpr Fun Args => HCallExpr Fun Args (Node_induction Fun) (all Args)
  | ast.SelectorExpr X Sel => HSelectorExpr X Sel (Node_induction X)
  | ast.CompositeLit Type_ Lbrace Elts =>
    HCompositeLit Type_ Lbrace Elts
      (match Type_ as o return forall t, o = Some t -> P t with
       | Some c => fun t e => match e in _ = y return match y with Some t' => P t' | None => True end
                              with eq_refl => Node_induction c end
       | None => fun t e => match e in _ = y return match y with Some _ => P t | None => True end
                            with eq_refl => I end
       end)
      (all Elts)
  | ast.KeyValueExpr Key Value => HKeyValueExpr Key Value (Node_induction Key) (Node_induction Value)
  | ast.SendStmt Chan Value => HSendStmt Chan Value (Node_induction Chan) (Node_induction Value)
  | ast.AssignStmt Lhs Rhs => HAssignStmt Lhs Rhs (all Lhs) (all Rhs)
  | ast.ValueSpec Names Type_ Values =>
    HValueSpec Names Type_ Values
      (match Type_ as o return forall t, o = Some t -> P t with
       | Some c => fun t e => match e in _ = y return match y with Some t' => P t' | None => True end
                              with eq_refl => Node_induction c end
       | None => fun t e => match e in _ = y return match y with Some _ => P t | None => True end
                            with eq_refl => I end
       end)
      (all Values)
  | ast.Other T p children => HOther T p children (all children)
  end.

End NodeInduction.

(** ** What the visitor's methods leave unchanged *)

Lemma structural_refl (v : visitor) : structural v v.
Proof.
  repeat split. exists []. rewrite app_nil_r. split; [reflexivity | constructor].
Qed.

Lemma structural_trans (v1 v2 v3 : visitor) :
  structural v1 v2 -> structural v2 v3 -> structural v1 v3.
Proof.
  intros (Hf1 & Hs1 & l1 & Hi1 & Hl1) (Hf2 & Hs2 & l2 & Hi2 & Hl2).
  repeat split; try congruence.
  exists (l1 ++ l2)%list. split.
  - rewrite Hi2, Hi1, app_assoc. reflexivity.
  - apply Forall_app. split; assumption.
Qed.

Lemma sameMetrics_refl (v : visitor) : sameMetrics v v.
Proof. reflexivity. Qed.

Lemma sameMetrics_trans (v1 v2 v3 : visitor) :
  sameMetrics v1 v2 -> sameMetrics v2 v3 -> sameMetrics v1 v3.
Proof. unfold sameMetrics. congruence. Qed.

Section Preserves.
Variable R : visitor -> visitor -> Prop.
Hypothesis R_refl : forall v, R v v.
Hypothesis R_trans : forall v1 v2 v3, R v1 v2 -> R v2 v3 -> R v1 v3.

Lemma preserves_ret {A : Type} (a : A) : preserves R (ret a).
Proof. intros v a' v' H. inversion H; subst. apply R_refl. Qed.

Lemma preserves_raise {A : Type} (p : panic) : preserves R (@raise A p).
Proof. intros v a v' H. discriminate. Qed.

Lemma preserves_gets {A : Type} (f : visitor -> A) : preserves R (gets f).
Proof. intros v a v' H. inversion H; subst. apply R_refl. Qed.

Lemma preserves_bind {A B : Type} (c : M A) (k : A -> M B) :
  preserves R c -> (forall a, preserves R (k a)) -> preserves R (bind c k).
Proof.
  intros Hc Hk v b v' H. unfold bind in H.
  destruct (c v) as [[a v1] | p |] eqn:E; try discriminate.
  eapply R_trans; [eapply Hc; eassumption | eapply Hk; eassumption].
Qed.

Lemma preserves_index {A : Type} (l : list A) (i : nat) : preserves R (index l i).
Proof.
  unfold index. destruct (nth_error l i); [apply preserves_ret | apply preserves_raise].
Qed.

Lemma preserves_Position (p : token.Pos) : preserves R (Position p).
Proof. apply preserves_gets. Qed.

Lemma preserves_out_of_fuel {A : Type} : preserves R (fun _ : visitor => @OutOfFuel (A * visitor)).
Proof. intros v a v' H. discriminate. Qed.

End Preserves.

Lemma appendIssue_structural (i : Issue) :
  Metric i = "" -> preserves structural (appendIssue i).
Proof.
  intros Hi v a v' H. inversion H; subst. repeat split; simpl.
  exists [i]. split; [reflexivity | constructor; [assumption | constructor]].
Qed.

Lemma appendIssue_sameMetrics (i : Issue) : preserves sameMetrics (appendIssue i).
Proof. intros v a v' H. inversion H; subst. reflexivity. Qed.

Lemma addMetric_structural (m : dto.MetricFamily) (pos : token.Position) :
  preserves structural (addMetric m pos).
Proof.
  intros v a v' H. inversion H; subst. repeat split; simpl.
  exists []. rewrite app_nil_r. split; [reflexivity | constructor].
Qed.

Create HintDb visitor.
#[local] Hint Resolve structural_refl sameMetrics_refl : visitor.
#[local] Hint Resolve preserves_ret preserves_raise preserves_gets preserves_index
  preserves_Position preserves_out_of_fuel : visitor.
#[local] Hint Resolve appendIssue_sameMetrics addMetric_structural : visitor.
#[local] Hint Extern 1 (preserves structural (appendIssue _)) =>
  apply appendIssue_structural; reflexivity : visitor.

(** One step through a method body: split a sequence, take a branch, or
    close a leaf with the facts above. *)
Ltac step_preserves trans :=
  match goal with
  | |- preserves _ (bind _ _) => apply preserves_bind; [exact trans | | intros ?]
  | |- preserves _ (if ?b then _ else _) => destruct b
  | |- preserves _ (let '(_, _) := ?x in _) => destruct x
  | |- preserves _ (match ?x with _ => _ end) => destruct x
  | |- preserves _ _ => solve [auto with visitor]
  end.

Section VisitorFacts.
Variable Unquote : string -> option string.
Variable Decl : ast.Decls.

Lemma mustUnquote_preserves (R : visitor -> visitor -> Prop) (str : string) :
  (forall v, R v v) -> preserves R (mustUnquote Unquote str).
Proof.
  intros HR. unfold mustUnquote.
  destruct (Unquote str); [apply preserves_ret | apply preserves_raise]; assumption.
Qed.

Lemma parseValue_structural (fuel : nat) (object : string) (n : ast.Node) :
  preserves structural (parseValue Unquote Decl fuel object n).
Proof.
  revert object n. induction fuel as [|fuel IH]; intros object n; simpl.
  - auto with visitor.
  - destruct n; repeat first
      [ apply IH
      | apply mustUnquote_preserves; exact structural_refl
      | step_preserves structural_trans ].
Qed.

Lemma parseValue_sameMetrics (fuel : nat) (object : string) (n : ast.Node) :
  preserves sameMetrics (parseValue Unquote Decl fuel object n).
Proof.
  revert object n. induction fuel as [|fuel IH]; intros object n; simpl.
  - auto with visitor.
  - destruct n; repeat first
      [ apply IH
      | apply mustUnquote_preserves; exact sameMetrics_refl
      | step_preserves sameMetrics_trans ].
Qed.

Lemma parseCompositeOptsElts_structural (fuel : nat) (Elts : list ast.Node)
    (metricOption : opt) (help : option string) :
  preserves structural (parseCompositeOptsElts Unquote Decl fuel Elts metricOption help).
Proof.
  revert metricOption help. induction Elts as [|elt Elts IH]; intros; simpl.
  - auto with visitor.
  - repeat first
      [ apply IH | apply parseValue_structural | step_preserves structural_trans ].
Qed.

Lemma parseCompositeOptsElts_sameMetrics (fuel : nat) (Elts : list ast.Node)
    (metricOption : opt) (help : option string) :
  preserves sameMetrics (parseCompositeOptsElts Unquote Decl fuel Elts metricOption help).
Proof.
  revert metricOption help. induction Elts as [|elt Elts IH]; intros; simpl.
  - auto with visitor.
  - repeat first
      [ apply IH | apply parseValue_sameMetrics | step_preserves sameMetrics_trans ].
Qed.

Lemma parseOpts_structural (fuel : nat) (n : ast.Node) :
  preserves structural (parseOpts Unquote Decl fuel n).
Proof.
  unfold parseOpts, parseCompositeOpts.
  repeat first
    [ apply parseCompositeOptsElts_structural | step_preserves structural_trans ].
Qed.

Lemma parseOpts_sameMetrics (fuel : nat) (n : ast.Node) :
  preserves sameMetrics (parseOpts Unquote Decl fuel n).
Proof.
  unfold parseOpts, parseCompositeOpts.
  repeat first
    [ apply parseCompositeOptsElts_sameMetrics | step_preserves sameMetrics_trans ].
Qed.

Lemma parseCallerExpr_structural (fuel : nat) (Fun : ast.Node) (Args : list ast.Node) :
  preserves structural (parseCallerExpr Unquote Decl fuel Fun Args).
Proof.
  unfold parseCallerExpr.
  repeat first [ apply parseOpts_structural | step_preserves structural_trans ].
Qed.

Lemma parseNewDescCallExpr_structural (fuel : nat) (Fun : ast.Node) (Args : list ast.Node) :
  preserves structural (parseNewDescCallExpr Unquote Decl fuel Fun Args).
Proof.
  unfold parseNewDescCallExpr.
  repeat first [ apply parseValue_structural | step_preserves structural_trans ].
Qed.

Lemma parseConstMetricOpts_structural (fuel : nat) (n : ast.Node) :
  preserves structural (parseConstMetricOpts Unquote Decl fuel n).
Proof.
  unfold parseConstMetricOpts.
  repeat first [ apply parseNewDescCallExpr_structural | step_preserves structural_trans ].
Qed.

Lemma parseSendMetricChanExpr_structural (fuel : nat) (Chan Value : ast.Node) :
  preserves structural (parseSendMetricChanExpr Unquote Decl fuel Chan Value).
Proof.
  unfold parseSendMetricChanExpr.
  repeat first [ apply parseConstMetricOpts_structural | step_preserves structural_trans ].
Qed.

Lemma Visit_structural (fuel : nat) (n : ast.Node) :
  preserves structural (Visit Unquote Decl fuel n).
Proof.
  destruct n; simpl; auto with visitor.
  - apply parseCallerExpr_structural.
  - apply parseSendMetricChanExpr_structural.
Qed.

(** [ast.Walk] on a node: the visit, then the walks of the children. *)
Lemma Walk_children (fuel : nat) (l : list ast.Node) :
  (fix walkList (l : list ast.Node) : M unit :=
     match l with
     | [] => ret tt
     | c :: l => Walk Unquote Decl fuel c ;; walkList l
     end) l = walkFiles Unquote Decl fuel l.
Proof.
  induction l as [|c l IH]; simpl; [reflexivity |]. rewrite IH. reflexivity.
Qed.

Lemma walkFiles_structural (fuel : nat) (l : list ast.Node) :
  Forall (fun c => preserves structural (Walk Unquote Decl fuel c)) l ->
  preserves structural (walkFiles Unquote Decl fuel l).
Proof.
  induction 1 as [|c l Hc Hl IH]; simpl.
  - auto with visitor.
  - apply preserves_bind; [exact structural_trans | exact Hc | intros _; exact IH].
Qed.

Lemma Walk_eq (fuel : nat) (node : ast.Node) :
  Walk Unquote Decl fuel node =
  (Visit Unquote Decl fuel node ;;
   match node with
   | ast.BasicLit _ _ _ => ret tt
   | ast.Ident _ => ret tt
   | ast.BinaryExpr X _ Y => Walk Unquote Decl fuel X ;; Walk Unquote Decl fuel Y
   | ast.CallExpr Fun Args => Walk Unquote Decl fuel Fun ;; walkFiles Unquote Decl fuel Args
   | ast.SelectorExpr X _ => Walk Unquote Decl fuel X
   | ast.CompositeLit Type_ _ Elts =>
     match Type_ with
     | Some c => Walk Unquote Decl fuel c
     | None => ret tt
     end ;; walkFiles Unquote Decl fuel Elts
   | ast.KeyValueExpr Key Value => Walk Unquote Decl fuel Key ;; Walk Unquote Decl fuel Value
   | ast.SendStmt Chan Value => Walk Unquote Decl fuel Chan ;; Walk Unquote Decl fuel Value
   | ast.AssignStmt Lhs Rhs => walkFiles Unquote Decl fuel Lhs ;; walkFiles Unquote Decl fuel Rhs
   | ast.ValueSpec _ Type_ Values =>
     match Type_ with
     | Some c => Walk Unquote Decl fuel c
     | None => ret tt
     end ;; walkFiles Unquote Decl fuel Values
   | ast.Other _ _ children => walkFiles Unquote Decl fuel children
   end).
Proof.
  destruct node; simpl; rewrite ?Walk_children; reflexivity.
Qed.

Lemma Walk_structural (fuel : nat) (node : ast.Node) :
  preserves structural (Walk Unquote Decl fuel node).
Proof.
  induction node using Node_induction; rewrite Walk_eq;
    (apply preserves_bind; [exact structural_trans | apply Visit_structural | intros _]);
    repeat first
      [ assumption
      | apply walkFiles_structural; assumption
      | match goal with
        | H : forall t, ?o = Some t -> _ |- preserves _ (match ?o with _ => _ end) =>
          destruct o; [apply (H _ eq_refl) | auto with visitor]
        end
      | step_preserves structural_trans ].
Qed.

End VisitorFacts.

(** ** The run: linting and sorting *)

Section RunFacts.
Variable Unquote : string -> option string.
Variable Lint : dto.MetricFamily -> option (list promlint.Problem).
Variable rangeOrder :
  list (dto.MetricFamily * token.Position) -> list (dto.MetricFamily * token.Position).
Variable Decl : ast.Decls.

Lemma lintMetrics_issues (ms : list (dto.MetricFamily * token.Position)) (v v' : visitor) :
  lintMetrics Lint ms v = Ok (tt, v') ->
  exists semantic,
    issues v' = (issues v ++ semantic)%list /\ Forall (wraps Lint ms) semantic.
Proof.
  revert v. induction ms as [|[m pos] ms IH]; intros v H; simpl in H.
  - inversion H; subst. exists []. rewrite app_nil_r. split; [reflexivity | constructor].
  - destruct (Lint m) as [problems|] eqn:EL; [| discriminate].
    unfold bind, appendIssues in H.
    apply IH in H. simpl in H. destruct H as (sem & Hi & Hsem).
    exists (map (wrapProblem pos) problems ++ sem)%list. split.
    + rewrite Hi, app_assoc. reflexivity.
    + apply Forall_app. split.
      * apply Forall_forall. intros i Hin. apply in_map_iff in Hin.
        destruct Hin as (p & <- & Hp).
        exists m, pos, problems, p. repeat split; auto. left. reflexivity.
      * eapply Forall_impl; [| exact Hsem].
        intros i (m' & pos' & ps & p & Hin & HL & Hp & ->).
        exists m', pos', ps, p. repeat split; auto. right. assumption.
Qed.

(** What [Run] returns: the issues of the traversal followed by those of
    the validator, sorted. *)
Lemma Run_returns (fuel : nat) (fs : token.Pos -> token.Position) (files : list ast.Node)
    (strict : bool) (out : list Issue) :
  Run Unquote Lint rangeOrder Decl fuel fs files strict = Ok out ->
  exists v semantic,
    walkFiles Unquote Decl fuel files (mkVisitor fs [] [] strict) = Ok (tt, v) /\
    Forall (wraps Lint (rangeOrder (metrics v))) semantic /\
    out = sort.Slice issueLess (issues v ++ semantic).
Proof.
  unfold Run, bind, gets. intros H.
  destruct (walkFiles Unquote Decl fuel files (mkVisitor fs [] [] strict))
    as [[[] v] | p |] eqn:EW; try discriminate.
  destruct (lintMetrics Lint (rangeOrder (metrics v)) v) as [[[] v'] | p |] eqn:EL;
    try discriminate.
  inversion H; subst. apply lintMetrics_issues in EL. destruct EL as (sem & Hi & Hsem).
  exists v, sem. rewrite Hi. auto.
Qed.

Lemma issueLess_asym (a b : Issue) : issueLess a b = true -> issueLess b a = false.
Proof. apply string_ltb_asym. Qed.

Lemma issueLess_not_trans (a b c : Issue) :
  issueLess b a = false -> issueLess c b = false -> issueLess c a = false.
Proof. apply string_not_ltb_trans. Qed.

Lemma StronglySorted_weaken {A : Type} (R R' : A -> A -> Prop) (l : list A) :
  (forall a b, R a b -> R' a b) -> StronglySorted R l -> StronglySorted R' l.
Proof.
  intros HR. induction 1 as [|x l Hl IH Hx]; constructor; [assumption |].
  eapply Forall_impl; [| exact Hx]. intros b. apply HR.
Qed.

(** C8: the issues a run returns are in ascending order of their formatted
    positions, compared as text, and sorting the returned list again gives
    the same list. *)
Theorem Run_issues_sorted (fuel : nat) (fs : token.Pos -> token.Position)
    (files : list ast.Node) (strict : bool) (out : list Issue) :
  Run Unquote Lint rangeOrder Decl fuel fs files strict = Ok out ->
  StronglySorted (fun a b => positionLeb a b = true) out /\
  sort.Slice issueLess out = out.
Proof.
  intros H. apply Run_returns in H. destruct H as (v & sem & _ & _ & ->).
  pose proof (Slice_sorted issueLess issueLess_asym issueLess_not_trans
                (issues v ++ sem)) as Hs.
  split.
  - eapply StronglySorted_weaken; [| exact Hs].
    intros a b Hab. unfold positionLeb. apply string_ltb_leb. exact Hab.
  - apply (Slice_fixed issueLess). exact Hs.
Qed.

(** C10: in the list a run returns, the issues added during the traversal
    all have an empty metric name; every other issue wraps a problem of the
    validator and carries the metric name the validator reported. *)
Theorem structural_issues_carry_no_metric (fuel : nat) (fs : token.Pos -> token.Position)
    (files : list ast.Node) (strict : bool) (out : list Issue) :
  Run Unquote Lint rangeOrder Decl fuel fs files strict = Ok out ->
  exists v semantic,
    walkFiles Unquote Decl fuel files (mkVisitor fs [] [] strict) = Ok (tt, v) /\
    Forall (fun i => Metric i = "") (issues v) /\
    Forall (fun i => exists m pos problems p,
                In (m, pos) (rangeOrder (metrics v)) /\ Lint m = Some problems /\
                In p problems /\
                i = mkIssue pos (promlint.Metric p) (promlint.Text p)) semantic /\
    Permutation out (issues v ++ semantic).
Proof.
  intros H. apply Run_returns in H. destruct H as (v & sem & HW & Hsem & ->).
  exists v, sem. repeat split.
  - exact HW.
  - assert (Hfiles : preserves structural (walkFiles Unquote Decl fuel files)).
    { apply walkFiles_structural, Forall_forall. intros c _. apply Walk_structural. }
    apply Hfiles in HW. destruct HW as (_ & _ & added & Hi & Hadded).
    simpl in Hi. rewrite Hi. exact Hadded.
  - exact Hsem.
  - apply Slice_perm.
Qed.

End RunFacts.

(** C8 on the file [Samples.threeCalls]. *)
Lemma Run_issues_sorted_witness :
  Run Samples.unquotePlain Samples.lintHelp Samples.inOrder Samples.noDecl 5
      Samples.fset Samples.threeCalls true = Ok Samples.threeCallsIssues /\
  StronglySorted (fun a b => positionLeb a b = true) Samples.threeCallsIssues /\
  sort.Slice issueLess Samples.threeCallsIssues = Samples.threeCallsIssues.
Proof.
  split; [reflexivity |].
  apply (Run_issues_sorted Samples.unquotePlain Samples.lintHelp Samples.inOrder
           Samples.noDecl 5 Samples.fset Samples.threeCalls true).
  reflexivity.
Defined.

(** C10 on the file [Samples.threeCalls]. *)
Lemma structural_issues_carry_no_metric_witness :
  Run Samples.unquotePlain Samples.lintHelp Samples.inOrder Samples.noDecl 5
      Samples.fset Samples.threeCalls true = Ok Samples.threeCallsIssues /\
  exists v semantic,
    walkFiles Samples.unquotePlain Samples.noDecl 5 Samples.threeCalls
      (mkVisitor Samples.fset [] [] true) = Ok (tt, v) /\
    Forall (fun i => Metric i = "") (issues v) /\
    Forall (fun i => exists m pos problems p,
                In (m, pos) (Samples.inOrder (metrics v)) /\
                Samples.lintHelp m = Some problems /\ In p problems /\
                i = mkIssue pos (promlint.Metric p) (promlint.Text p)) semantic /\
    Permutation Samples.threeCallsIssues (issues v ++ semantic).
Proof.
  split; [reflexivity |].
  apply (structural_issues_carry_no_metric Samples.unquotePlain Samples.lintHelp
           Samples.inOrder Samples.noDecl 5 Samples.fset Samples.threeCalls true).
  reflexivity.
Defined.

(** ** Termination of the resolver *)

Section Termination.
Variable Unquote : string -> option string.
Variable Decl : ast.Decls.

(** [parseValue] comes back from [n], whatever the field and the visitor,
    once it is given enough fuel, and more fuel does not change the answer. *)
Let Term (n : ast.Node) : Prop :=
  forall object v, exists fuel r,
    returned r /\ forall k, parseValue Unquote Decl (fuel + k) object n v = r.

(** The value-specs behind the identifiers that [n] is put together from. *)
Let TermRefs (n : ast.Node) : Prop :=
  forall o, In o (operands n) ->
  forall Names Type_ Values,
    Decl o = Some (ast.ValueSpec Names Type_ Values) ->
    Term (ast.ValueSpec Names Type_ Values).

Lemma parseValue_one_call (object : string) (n : ast.Node) (v : visitor) :
  returned (parseValue Unquote Decl 1 object n v) ->
  (forall k, parseValue Unquote Decl (1 + k) object n v = parseValue Unquote Decl 1 object n v) ->
  exists fuel r, returned r /\ forall k, parseValue Unquote Decl (fuel + k) object n v = r.
Proof. intros Hr Hk. exists 1, (parseValue Unquote Decl 1 object n v). auto. Qed.

Lemma parseValue_unsupported (fuel : nat) (object : string) (n : ast.Node) (v : visitor) :
  unsupportedKind n = true ->
  parseValue Unquote Decl (S fuel) object n v =
  Ok (("", false),
      if strict v
      then mkVisitor (fs v) (metrics v) (issues v ++ [unsupportedIssue v object n]) (strict v)
      else v).
Proof.
  intros Hn. destruct v as [f m i [|]].
  all: destruct n; try discriminate Hn; reflexivity.
Qed.

Lemma unsupported_terminates (n : ast.Node) : unsupportedKind n = true -> Term n.
Proof.
  intros Hn object v. apply parseValue_one_call.
  - rewrite parseValue_unsupported by assumption. simpl. auto.
  - intros k. simpl Nat.add. rewrite !parseValue_unsupported by assumption. reflexivity.
Qed.

(** A value-spec is answered with what its first value gives. *)
Lemma valueSpec_terminates (Names : list ast.IdentData) (Type_ : option ast.Node)
    (Values : list ast.Node) :
  (forall v0 rest, Values = v0 :: rest -> Term v0) ->
  Term (ast.ValueSpec Names Type_ Values).
Proof.
  intros Hv0 object v. destruct Values as [|v0 rest].
  - exists 1, (Ok (("", false), v)). split; [simpl; auto | reflexivity].
  - destruct (Hv0 v0 rest eq_refl object v) as (fuel & r & Hr & Hk).
    exists (S fuel), r. split; [assumption |]. intros k. simpl. apply Hk.
Qed.

Lemma node_terminates (n : ast.Node) : TermRefs n -> Term n.
Proof.
  induction n as [p kind s | i | X Op Y IHX IHY | | | | | | | Names Type_ Values _ IHValues | ]
    using Node_induction; intros Hrefs;
    try (apply unsupported_terminates; reflexivity).
  - (* a literal *)
    intros object v. apply parseValue_one_call; [| reflexivity].
    simpl. destruct (token.Token_eqb kind token.STRING); simpl; auto.
    unfold bind, mustUnquote. destruct (Unquote s); simpl; auto.
  - (* an identifier *)
    intros object v. destruct i as [np nm [o|]]; simpl in Hrefs.
    + destruct (Decl o) as [d|] eqn:ED.
      * assert (Hd : (exists Names Type_ Values, d = ast.ValueSpec Names Type_ Values) \/
                     forall fuel,
                       parseValue Unquote Decl (S fuel) object
                         (ast.Ident (ast.mkIdent np nm (Some o))) v = Ok (("", false), v)).
        { destruct d; try (right; intros fuel; simpl; rewrite ED; reflexivity).
          left. eauto. }
        destruct Hd as [(Names & Type_ & Values & ->) | Hfail].
        -- destruct (Hrefs o (or_introl eq_refl) Names Type_ Values ED object v)
             as (fuel & r & Hr & Hk).
           exists (S fuel), r. split; [assumption |].
           intros k. simpl. rewrite ED. apply Hk.
        -- exists 1, (Ok (("", false), v)). split; [simpl; auto |].
           intros k. apply Hfail.
      * exists 1, (Ok (("", false), v)). split; [simpl; auto |].
        intros k. simpl. rewrite ED. reflexivity.
    + exists 1, (Ok (("", false), v)). split; [simpl; auto | reflexivity].
  - (* a binary expression *)
    intros object v.
    destruct (token.Token_eqb Op token.ADD) eqn:EOp.
    + assert (HX : TermRefs X).
      { intros o Ho. apply Hrefs. simpl. rewrite EOp. apply in_or_app. left. assumption. }
      assert (HY : TermRefs Y).
      { intros o Ho. apply Hrefs. simpl. rewrite EOp. apply in_or_app. right. assumption. }
      destruct (IHX HX object v) as (fx & rx & Hrx & Hkx).
      destruct rx as [[[x okx] v1] | p |]; [| | contradiction].
      * destruct okx.
        -- destruct (IHY HY object v1) as (fy & ry & Hry & Hky).
           exists (S (Nat.max fx fy)).
           assert (EX : forall k, parseValue Unquote Decl (Nat.max fx fy + k) object X v
                                  = Ok ((x, true), v1)).
           { intros k. replace (Nat.max fx fy + k) with (fx + (Nat.max fx fy - fx + k)) by lia.
             apply Hkx. }
           assert (EY : forall k, parseValue Unquote Decl (Nat.max fx fy + k) object Y v1 = ry).
           { intros k. replace (Nat.max fx fy + k) with (fy + (Nat.max fx fy - fy + k)) by lia.
             apply Hky. }
           destruct ry as [[[y oky] v2] | p |]; [| | contradiction].
           ++ exists (if oky then Ok ((x ++ y, true), v2) else Ok (("", false), v2)).
              split; [destruct oky; simpl; auto |].
              intros k. simpl. rewrite EOp. unfold bind. rewrite EX. simpl. rewrite EY.
              destruct oky; reflexivity.
           ++ exists (Panic p). split; [exact Hry |].
              intros k. simpl. rewrite EOp. unfold bind. rewrite EX. simpl. rewrite EY.
              reflexivity.
        -- exists (S fx), (Ok (("", false), v1)). split; [simpl; auto |].
           intros k. simpl. rewrite EOp. unfold bind. rewrite Hkx. reflexivity.
      * exists (S fx), (Panic p). split; [exact Hrx |].
        intros k. simpl. rewrite EOp. unfold bind. rewrite Hkx. reflexivity.
    + exists 1, (Ok (("", false), v)). split; [simpl; auto |].
      intros k. simpl. rewrite EOp. reflexivity.
  - (* a value-spec *)
    apply valueSpec_terminates. intros v0 rest ->.
    inversion IHValues as [|? ? IH0 _]; subst.
    apply IH0. intros o Ho. apply Hrefs. simpl. apply in_or_app. left. exact Ho.
Qed.

(** The first name of a value-spec has the first value for initializer. *)
Lemma firstName_initializer (o : ast.Object) (Names : list ast.IdentData)
    (Type_ : option ast.Node) (v0 : ast.Node) (rest : list ast.Node) :
  firstName Decl o ->
  Decl o = Some (ast.ValueSpec Names Type_ (v0 :: rest)) ->
  initializer o Names (v0 :: rest) = Some v0.
Proof.
  intros Hfirst ED. destruct (Hfirst _ _ _ ED) as (name & names & -> & HO).
  simpl. rewrite HO, Nat.eqb_refl. reflexivity.
Qed.

Lemma declaration_terminates (o : ast.Object) :
  finiteChain Decl o ->
  forall Names Type_ Values,
    Decl o = Some (ast.ValueSpec Names Type_ Values) ->
    Term (ast.ValueSpec Names Type_ Values).
Proof.
  induction 1 as [o Hfirst _ IH]. intros Names Type_ Values ED.
  apply valueSpec_terminates. intros v0 rest ->.
  apply node_terminates. intros o' Ho'. apply IH.
  exists Names, Type_, (v0 :: rest), v0.
  split; [exact ED |]. split; [| exact Ho'].
  apply (firstName_initializer o Names Type_ v0 rest Hfirst ED).
Qed.

Lemma parseValue_terminates (n : ast.Node) (object : string) (v : visitor) :
  (forall o, In o (operands n) -> finiteChain Decl o) ->
  exists fuel r,
    returned r /\ forall k, parseValue Unquote Decl (fuel + k) object n v = r.
Proof.
  intros Hchain. apply node_terminates.
  intros o Ho. apply declaration_terminates, Hchain, Ho.
Qed.

(** The only panic of a resolution is that of [mustUnquote], on a literal
    that [Unquote] rejects. *)
Lemma parseValue_panic_literal (fuel : nat) (object : string) (n : ast.Node) (v : visitor)
    (p : panic) :
  parseValue Unquote Decl fuel object n v = Panic p -> exists lit, Unquote lit = None.
Proof.
  revert n v. induction fuel as [|fuel IH]; intros n v H; [discriminate |].
  destruct (unsupportedKind n) eqn:EK.
  - rewrite parseValue_unsupported in H by exact EK. discriminate.
  - destruct n; try discriminate EK; simpl in H.
    + destruct (token.Token_eqb Kind token.STRING); [| discriminate].
      unfold bind, mustUnquote in H. destruct (Unquote Value) eqn:EU; [discriminate |].
      exists Value. exact EU.
    + destruct (ast.Obj id) as [obj|]; [| discriminate].
      destruct (Decl obj) as [d|]; [| discriminate].
      destruct d; try discriminate. eapply IH. exact H.
    + destruct (token.Token_eqb Op token.ADD); [| discriminate].
      unfold bind in H.
      destruct (parseValue Unquote Decl fuel object n1 v) as [[[x okx] v1] | p1 |] eqn:EX;
        [| inversion H; subst; eapply IH; exact EX | discriminate].
      destruct okx; simpl in H; [| discriminate].
      destruct (parseValue Unquote Decl fuel object n2 v1) as [[[y oky] v2] | p2 |] eqn:EY;
        [| inversion H; subst; eapply IH; exact EY | discriminate].
      destruct oky; discriminate.
    + destruct Values as [|init rest]; [discriminate |]. eapply IH. exact H.
Qed.

End Termination.

(** [var x = x]: the initializer of [x] is [x]. *)
Lemma declCycle_declaredFrom_itself : declaredFrom Samples.declCycle 0 0.
Proof.
  exists [ast.mkIdent 49%Z "x" (Some 0)], None, [Samples.identOf 51%Z "x" 0],
         (Samples.identOf 51%Z "x" 0).
  split; [reflexivity |]. split; [reflexivity | left; reflexivity].
Qed.

Lemma declCycle_diverges (Unquote : string -> option string) (object : string)
    (v : visitor) (fuel : nat) :
  parseValue Unquote Samples.declCycle fuel object (Samples.identOf 51%Z "x" 0) v = OutOfFuel /\
  parseValue Unquote Samples.declCycle fuel object
    (ast.ValueSpec [ast.mkIdent 49%Z "x" (Some 0)] None [Samples.identOf 51%Z "x" 0]) v
  = OutOfFuel.
Proof.
  induction fuel as [|fuel [IHi IHv]]; [split; reflexivity |].
  split; simpl; assumption.
Qed.

(** [var y = "requests"] and [var x = y + "_total"]: the chain from [x]
    goes to [y] and ends there. *)
Lemma declChain_finite (o : ast.Object) : finiteChain Samples.declChain o.
Proof.
  assert (H1 : finiteChain Samples.declChain 1).
  { constructor.
    - intros Names Type_ Values HD. inversion HD; subst. eauto.
    - intros o' (Names & Type_ & Values & init & HD & HI & Hin).
      inversion HD; subst. inversion HI; subst. destruct Hin. }
  destruct o as [|[|o]].
  - constructor.
    + intros Names Type_ Values HD. inversion HD; subst. eauto.
    + intros o' (Names & Type_ & Values & init & HD & HI & Hin).
      inversion HD; subst. inversion HI; subst.
      destruct Hin as [<- | []]. exact H1.
  - exact H1.
  - constructor.
    + intros Names Type_ Values HD. discriminate HD.
    + intros o' (Names & Type_ & Values & init & HD & _). discriminate HD.
Qed.

(** [var x, y = y + "_total", "requests"]: the initializer of [x] is put
    together from [y], that of [y] from no identifier, so every chain of
    declarations is finite; [y] is the second name of the value-spec, and
    the resolver, sent from [y] to the first value, does not come back. *)
Lemma declTogether_second_name :
  (forall o, Acc (declaredFrom Samples.declTogether) o) /\
  forall (Unquote : string -> option string) (object : string) (v : visitor) (fuel : nat),
    parseValue Unquote Samples.declTogether fuel object (Samples.identOf 51%Z "y" 1) v
    = OutOfFuel.
Proof.
  split.
  - assert (H1 : Acc (declaredFrom Samples.declTogether) 1).
    { constructor. intros o' (Names & Type_ & Values & init & HD & HI & Hin).
      inversion HD; subst. inversion HI; subst. destruct Hin. }
    intros [|[|o]]; [| exact H1 |].
    + constructor. intros o' (Names & Type_ & Values & init & HD & HI & Hin).
      inversion HD; subst. inversion HI; subst.
      destruct Hin as [<- | []]. exact H1.
    + constructor. intros o' (Names & Type_ & Values & init & HD & _). discriminate HD.
  - intros Unquote object v fuel.
    assert (H : parseValue Unquote Samples.declTogether fuel object
                  (Samples.identOf 51%Z "y" 1) v = OutOfFuel /\
                parseValue Unquote Samples.declTogether fuel object Samples.yTotal v
                = OutOfFuel /\
                parseValue Unquote Samples.declTogether fuel object
                  (ast.ValueSpec [ast.mkIdent 49%Z "x" (Some 0); ast.mkIdent 50%Z "y" (Some 1)]
                     None [Samples.yTotal; Samples.str 61%Z "requests"]) v
                = OutOfFuel).
    { induction fuel as [|fuel (IHi & IHb & IHv)]; [repeat split; reflexivity |].
      split; [exact IHv |]. split; [| exact IHb].
      change (bind (parseValue Unquote Samples.declTogether fuel object
                      (Samples.identOf 51%Z "y" 1))
                (fun '(x, ok) =>
                   if negb ok then ret ("", false)
                   else
                     bind (parseValue Unquote Samples.declTogether fuel object
                             (Samples.str 53%Z "_total"))
                       (fun '(y, ok) =>
                          if negb ok then ret ("", false) else ret (x ++ y, true))) v
              = OutOfFuel).
      unfold bind. rewrite IHi. reflexivity. }
    exact (proj1 H).
Qed.

(** C9, as the code has it: [parseValue] comes back, with a string, with the
    failure or with the panic of [mustUnquote] on a literal that
    [strconv.Unquote] rejects, whenever every chain of identifier
    declarations that starts at the expression is finite (hence without a
    cycle) and goes through first names of value-specs.  Nothing in the code
    bounds the recursion or looks for a cycle: on [var x = x] no amount of
    fuel lets the call on [x] come back. *)
Theorem parseValue_terminates_on_finite_chains :
  (forall (Unquote : string -> option string) (Decl : ast.Decls)
          (object : string) (n : ast.Node) (v : visitor),
      (forall o, In o (operands n) -> finiteChain Decl o) ->
      exists fuel r,
        returned r /\
        (forall p, r = Panic p -> exists lit, Unquote lit = None) /\
        forall k, parseValue Unquote Decl (fuel + k) object n v = r) /\
  (declaredFrom Samples.declCycle 0 0 /\
   forall (Unquote : string -> option string) (object : string) (v : visitor) (fuel : nat),
     parseValue Unquote Samples.declCycle fuel object (Samples.identOf 51%Z "x" 0) v
     = OutOfFuel).
Proof.
  split; [| split].
  - intros Unquote Decl object n v Hchain.
    destruct (parseValue_terminates Unquote Decl n object v Hchain) as (fuel & r & Hr & Hk).
    exists fuel, r. split; [exact Hr |]. split; [| exact Hk].
    intros p Hp. apply (parseValue_panic_literal Unquote Decl (fuel + 0) object n v p).
    rewrite Hk. exact Hp.
  - exact declCycle_declaredFrom_itself.
  - intros Unquote object v fuel. apply declCycle_diverges.
Qed.

(** C9 on the field value [x], with [var x = y + "_total"] and
    [var y = "requests"]: the chain from [x] ends at [y]. *)
Lemma parseValue_terminates_on_finite_chains_witness :
  (forall o, In o (operands (Samples.identOf 1%Z "x" 0)) -> finiteChain Samples.declChain o) /\
  exists fuel r,
    returned r /\
    (forall p, r = Panic p -> exists lit, Samples.unquotePlain lit = None) /\
    forall k, parseValue Samples.unquotePlain Samples.declChain (fuel + k) "Name"
                (Samples.identOf 1%Z "x" 0) (mkVisitor Samples.fset [] [] true) = r.
Proof.
  split; [intros o _; apply declChain_finite |].
  apply (proj1 parseValue_terminates_on_finite_chains).
  intros o _. apply declChain_finite.
Defined.

(** C9 fails as stated: [var x = 1 + x] declares [x] from itself, a cycle,
    and the resolver comes back from [x] all the same, with the failure: it
    gives up at the literal [1] and does not look at the right operand. *)
Lemma cyclic_declaration_is_answered :
  declaredFrom Samples.declOnePlusX 0 0 /\
  forall k,
    parseValue Samples.unquotePlain Samples.declOnePlusX (4 + k) "Name"
      (Samples.identOf 31%Z "x" 0) (mkVisitor Samples.fset [] [] true)
    = Ok (("", false), mkVisitor Samples.fset [] [] true).
Proof.
  split.
  - exists [ast.mkIdent 49%Z "x" (Some 0)], None, [Samples.onePlusX], Samples.onePlusX.
    split; [reflexivity |]. split; [reflexivity | left; reflexivity].
  - intros k. reflexivity.
Qed.

(** ** Identifiers as field values *)

Section Identifiers.
Variable Unquote : string -> option string.
Variable Decl : ast.Decls.

(** C3, as the code has it: an identifier is resolved through its
    declaration only when that declaration is a value-spec with an
    initializer, into which [parseValue] recurses; with any other
    declaration, an assignment among them, or with none, it fails and adds no
    issue.  So [x] declared by [var x = "a" + "b"] resolves to the same text
    as the expression ["a" + "b"] itself. *)
Theorem parseValue_identifier (fuel : nat) (object : string) (t : ast.IdentData)
    (v : visitor) :
  (forall obj Names Type_ init rest,
      ast.Obj t = Some obj ->
      Decl obj = Some (ast.ValueSpec Names Type_ (init :: rest)) ->
      parseValue Unquote Decl (S (S fuel)) object (ast.Ident t) v
      = parseValue Unquote Decl fuel object init v) /\
  ((forall obj Names Type_ init rest,
       ast.Obj t = Some obj ->
       Decl obj <> Some (ast.ValueSpec Names Type_ (init :: rest))) ->
   parseValue Unquote Decl (S (S fuel)) object (ast.Ident t) v = Ok (("", false), v)) /\
  (forall obj Lhs Rhs,
      ast.Obj t = Some obj ->
      Decl obj = Some (ast.AssignStmt Lhs Rhs) ->
      parseValue Unquote Decl (S (S fuel)) object (ast.Ident t) v = Ok (("", false), v)) /\
  (forall obj Names Type_ rest p la q lb a b,
      ast.Obj t = Some obj ->
      Decl obj = Some (ast.ValueSpec Names Type_
                         (ast.BinaryExpr (ast.BasicLit p token.STRING la) token.ADD
                            (ast.BasicLit q token.STRING lb) :: rest)) ->
      Unquote la = Some a ->
      Unquote lb = Some b ->
      parseValue Unquote Decl (4 + fuel) object (ast.Ident t) v = Ok ((a ++ b, true), v) /\
      parseValue Unquote Decl (2 + fuel) object
        (ast.BinaryExpr (ast.BasicLit p token.STRING la) token.ADD
           (ast.BasicLit q token.STRING lb)) v = Ok ((a ++ b, true), v)).
Proof.
  assert (Hspec : forall obj Names Type_ init rest,
             ast.Obj t = Some obj ->
             Decl obj = Some (ast.ValueSpec Names Type_ (init :: rest)) ->
             forall f, parseValue Unquote Decl (S (S f)) object (ast.Ident t) v
                       = parseValue Unquote Decl f object init v).
  { intros obj Names Type_ init rest EO ED f.
    destruct t as [np nm ob]. simpl in EO. subst ob. simpl. rewrite ED. reflexivity. }
  assert (Hlit : forall p la q lb a b f,
             Unquote la = Some a -> Unquote lb = Some b ->
             parseValue Unquote Decl (2 + f) object
               (ast.BinaryExpr (ast.BasicLit p token.STRING la) token.ADD
                  (ast.BasicLit q token.STRING lb)) v = Ok ((a ++ b, true), v)).
  { intros p la q lb a b f Ha Hb. simpl. unfold bind, mustUnquote.
    rewrite Ha. simpl. rewrite Hb. reflexivity. }
  split; [| split; [| split]].
  - intros obj Names Type_ init rest EO ED. eapply Hspec; eassumption.
  - clear Hspec Hlit. intros Hno.
    destruct t as [np nm [obj|]]; simpl in Hno; simpl; [| reflexivity].
    destruct (Decl obj) as [d|] eqn:ED; [| reflexivity].
    destruct d as [ | | | | | | | | | Names Type_ [|init rest] | ]; try reflexivity.
    exfalso. eapply Hno; [reflexivity | exact ED].
  - intros obj Lhs Rhs EO ED. destruct t as [np nm ob]. simpl in EO. subst ob.
    simpl. rewrite ED. reflexivity.
  - intros obj Names Type_ rest p la q lb a b EO ED Ha Hb. split.
    + change (4 + fuel) with (S (S (2 + fuel))).
      rewrite (Hspec _ _ _ _ _ EO ED). eapply Hlit; eassumption.
    + eapply Hlit; eassumption.
Qed.

End Identifiers.

(** C3 on [var x = "a" + "b"]: [x] and the expression both give [ab]. *)
Lemma parseValue_identifier_witness :
  parseValue Samples.unquotePlain Samples.declVar 4 "Name" (Samples.identOf 1%Z "x" 0)
    (mkVisitor Samples.fset [] [] true) = Ok (("ab", true), mkVisitor Samples.fset [] [] true) /\
  parseValue Samples.unquotePlain Samples.declVar 2 "Name" Samples.aPlusB
    (mkVisitor Samples.fset [] [] true) = Ok (("ab", true), mkVisitor Samples.fset [] [] true).
Proof.
  apply (proj2 (proj2 (proj2
           (parseValue_identifier Samples.unquotePlain Samples.declVar 0 "Name"
              (ast.mkIdent 1%Z "x" (Some 0)) (mkVisitor Samples.fset [] [] true))))
           0 [ast.mkIdent 49%Z "x" (Some 0)] None [] 50%Z (Samples.quoted "a")
           52%Z (Samples.quoted "b") "a" "b");
    reflexivity.
Defined.

(** C3 fails as stated: with [x := "a" + "b"], an assignment, the field value
    [x] is not resolved, while the expression itself gives [ab]. *)
Lemma assigned_identifier_is_not_resolved :
  parseValue Samples.unquotePlain Samples.declAssign 5 "Name" (Samples.identOf 1%Z "x" 0)
    (mkVisitor Samples.fset [] [] true) = Ok (("", false), mkVisitor Samples.fset [] [] true) /\
  parseValue Samples.unquotePlain Samples.declAssign 5 "Name" Samples.aPlusB
    (mkVisitor Samples.fset [] [] true) = Ok (("ab", true), mkVisitor Samples.fset [] [] true).
Proof. split; reflexivity. Qed.

(** ** What a resolution does to the visitor *)

Section Resolution.
Variable Unquote : string -> option string.
Variable Decl : ast.Decls.

(** The visitor after one issue for the node [m] of unsupported kind. *)
Let reported (v : visitor) (object : string) (m : ast.Node) : visitor :=
  mkVisitor (fs v) (metrics v) (issues v ++ [unsupportedIssue v object m]) (strict v).

(** A resolution that succeeds leaves the visitor alone; one that fails
    answers [("", false)] and adds at most one issue, in strict mode, for the
    node of unsupported kind it stopped at. *)
Lemma parseValue_outcome (fuel : nat) (object : string) (n : ast.Node)
    (v : visitor) (s : string) (ok : bool) (v' : visitor) :
  parseValue Unquote Decl fuel object n v = Ok ((s, ok), v') ->
  (ok = true /\ v' = v) \/
  (ok = false /\ s = "" /\
   (v' = v \/
    (strict v = true /\ exists m, unsupportedKind m = true /\ v' = reported v object m))).
Proof.
  revert n v s ok v'. induction fuel as [|fuel IH]; intros n v s ok v' H; [discriminate |].
  destruct (unsupportedKind n) eqn:EK.
  - rewrite parseValue_unsupported in H by exact EK.
    inversion H; subst. right. repeat split.
    destruct (strict v) eqn:ES; [right | left; reflexivity].
    split; [reflexivity |]. exists n. split; [exact EK |].
    unfold reported. rewrite ES. reflexivity.
  - destruct n; try discriminate EK; simpl in H.
    + (* a literal *)
      destruct (token.Token_eqb Kind token.STRING).
      * unfold bind, mustUnquote in H. destruct (Unquote Value); inversion H; subst. auto.
      * inversion H; subst. auto.
    + (* an identifier *)
      destruct (ast.Obj id) as [obj|]; [| inversion H; subst; auto].
      destruct (Decl obj) as [d|]; [| inversion H; subst; auto].
      destruct d; try (inversion H; subst; auto; fail).
      apply IH in H. exact H.
    + (* a binary expression *)
      destruct (token.Token_eqb Op token.ADD); [| inversion H; subst; auto].
      unfold bind in H.
      destruct (parseValue Unquote Decl fuel object n1 v) as [[[x okx] v1] | p |] eqn:EX;
        try discriminate.
      apply IH in EX. destruct okx; simpl in H.
      * destruct EX as [[_ ->] | [E _]]; [| discriminate].
        destruct (parseValue Unquote Decl fuel object n2 v) as [[[y oky] v2] | p |] eqn:EY;
          try discriminate.
        apply IH in EY. destruct oky; simpl in H; inversion H; subst.
        -- destruct EY as [[_ ->] | [E _]]; [auto | discriminate].
        -- destruct EY as [[E _] | (_ & _ & Hv)]; [discriminate | auto].
      * inversion H; subst.
        destruct EX as [[E _] | (_ & _ & Hv)]; [discriminate | auto].
    + (* a value-spec *)
      destruct Values as [|v0 rest]; [inversion H; subst; auto |].
      apply IH in H. exact H.
Qed.

(** A resolution that succeeds gives the same string for every field name
    and from every visitor. *)
Lemma parseValue_resolved (fuel : nat) (object0 : string) (n : ast.Node)
    (v0 : visitor) (s : string) (v0' : visitor) :
  parseValue Unquote Decl fuel object0 n v0 = Ok ((s, true), v0') ->
  forall object v, parseValue Unquote Decl fuel object n v = Ok ((s, true), v).
Proof.
  revert n v0 s v0'. induction fuel as [|fuel IH]; intros n v0 s v0' H object v;
    [discriminate |].
  destruct (unsupportedKind n) eqn:EK.
  - rewrite parseValue_unsupported in H by exact EK. discriminate.
  - destruct n; try discriminate EK; simpl in H |- *.
    + destruct (token.Token_eqb Kind token.STRING); [| discriminate].
      unfold bind, mustUnquote in H |- *.
      destruct (Unquote Value); inversion H; subst. reflexivity.
    + destruct (ast.Obj id) as [obj|]; [| discriminate].
      destruct (Decl obj) as [d|]; [| discriminate].
      destruct d; try discriminate. eapply IH. exact H.
    + destruct (token.Token_eqb Op token.ADD); [| discriminate].
      unfold bind in H |- *.
      destruct (parseValue Unquote Decl fuel object0 n1 v0) as [[[x okx] v1] | p |] eqn:EX;
        try discriminate.
      destruct okx; simpl in H; [| discriminate].
      rewrite (IH _ _ _ _ EX object v). simpl.
      destruct (parseValue Unquote Decl fuel object0 n2 v1) as [[[y oky] v2] | p |] eqn:EY;
        try discriminate.
      destruct oky; simpl in H; [| discriminate].
      rewrite (IH _ _ _ _ EY object v). inversion H; subst. reflexivity.
    + destruct Values as [|init rest]; [discriminate |]. eapply IH. exact H.
Qed.

Lemma resolvesTo_parseValue (fuel : nat) (n : ast.Node) (s : string) :
  resolvesTo Unquote Decl fuel n = Some s ->
  forall object v, parseValue Unquote Decl fuel object n v = Ok ((s, true), v).
Proof.
  unfold resolvesTo. intros H.
  destruct (parseValue Unquote Decl fuel "" n blankVisitor) as [[[s' ok] v'] | p |] eqn:E;
    try discriminate.
  destruct ok; [| discriminate]. inversion H; subst.
  eapply parseValue_resolved. exact E.
Qed.

(** The shapes on which [parseValue] fails at once, without an issue. *)
Lemma parseValue_fails_silently (fuel : nat) (object : string) (n : ast.Node) (v : visitor) :
  failsSilently Decl n = true ->
  parseValue Unquote Decl (S fuel) object n v = Ok (("", false), v).
Proof.
  intros H. destruct n; try discriminate H; simpl in *.
  - destruct (token.Token_eqb Kind token.STRING); [discriminate | reflexivity].
  - destruct (ast.Obj id) as [obj|]; [| reflexivity].
    destruct (Decl obj) as [d|]; [| reflexivity].
    destruct d; try reflexivity. discriminate.
  - destruct (token.Token_eqb Op token.ADD); [discriminate | reflexivity].
  - destruct Values; [reflexivity | discriminate].
Qed.

(** Where a resolution stops.  One that succeeds stops nowhere; one that
    fails gave up at the node [stopsAt] finds, of unsupported kind or one of
    the shapes that fail silently, and the visitor has got the issue for that
    node when the mode is strict and the node's kind unsupported, and nothing
    otherwise. *)
Lemma parseValue_stops (fuel : nat) (object : string) (n : ast.Node)
    (v : visitor) (s : string) (ok : bool) (v' : visitor) :
  parseValue Unquote Decl fuel object n v = Ok ((s, ok), v') ->
  if ok then stopsAt Decl fuel n = None
  else exists m,
      stopsAt Decl fuel n = Some m /\
      (unsupportedKind m = true \/ failsSilently Decl m = true) /\
      (unsupportedKind n = true \/ failsSilently Decl n = true -> m = n) /\
      v' = (if strict v && unsupportedKind m then reported v object m else v).
Proof.
  revert n v s ok v'. induction fuel as [|fuel IH]; intros n v s ok v' H; [discriminate |].
  destruct (unsupportedKind n) eqn:EK.
  - rewrite parseValue_unsupported in H by exact EK. inversion H; subst.
    exists n. split; [destruct n; try discriminate EK; reflexivity |].
    split; [left; exact EK |]. split; [reflexivity |].
    rewrite EK, Bool.andb_true_r. reflexivity.
  - assert (Hsilent : failsSilently Decl n = true ->
                      parseValue Unquote Decl (S fuel) object n v = Ok ((s, ok), v') ->
                      stopsAt Decl (S fuel) n = Some n ->
                      if ok then stopsAt Decl (S fuel) n = None
                      else exists m,
                          stopsAt Decl (S fuel) n = Some m /\
                          (unsupportedKind m = true \/ failsSilently Decl m = true) /\
                          (unsupportedKind n = true \/ failsSilently Decl n = true -> m = n) /\
                          v' = (if strict v && unsupportedKind m then reported v object m else v)).
    { intros HF HP HS. rewrite parseValue_fails_silently in HP by exact HF.
      inversion HP; subst. exists n. split; [exact HS |]. split; [right; exact HF |].
      split; [reflexivity |]. rewrite EK, Bool.andb_false_r. reflexivity. }
    destruct n; try discriminate EK.
    + (* a literal *)
      destruct (token.Token_eqb Kind token.STRING) eqn:EKind.
      * cbn [parseValue] in H. rewrite EKind in H.
        unfold bind, mustUnquote in H. destruct (Unquote Value); inversion H; subst.
        cbn [stopsAt]. rewrite EKind. reflexivity.
      * apply Hsilent; [cbn [failsSilently]; rewrite EKind; reflexivity | exact H |].
        cbn [stopsAt]. rewrite EKind. reflexivity.
    + (* an identifier *)
      destruct (ast.Obj id) as [obj|] eqn:EO.
      2: { apply Hsilent; [cbn [failsSilently]; rewrite EO; reflexivity | exact H |].
           cbn [stopsAt]. rewrite EO. reflexivity. }
      destruct (Decl obj) as [d|] eqn:ED.
      2: { apply Hsilent; [cbn [failsSilently]; rewrite EO, ED; reflexivity | exact H |].
           cbn [stopsAt]. rewrite EO, ED. reflexivity. }
      destruct d;
        try (apply Hsilent; [cbn [failsSilently]; rewrite EO, ED; reflexivity | exact H |];
             cbn [stopsAt]; rewrite EO, ED; reflexivity).
      cbn [parseValue] in H. rewrite EO, ED in H. apply IH in H.
      cbn [stopsAt]. rewrite EO, ED. destruct ok; [exact H |].
      destruct H as (m & Hs & Hk & _ & Hv). exists m.
      split; [exact Hs |]. split; [exact Hk |]. split; [| exact Hv].
      intros [Hu | Hf]; [discriminate Hu |].
      cbn [failsSilently] in Hf. rewrite EO, ED in Hf. discriminate Hf.
    + (* a binary expression *)
      destruct (token.Token_eqb Op token.ADD) eqn:EOp.
      2: { apply Hsilent; [cbn [failsSilently]; rewrite EOp; reflexivity | exact H |].
           cbn [stopsAt]. rewrite EOp. reflexivity. }
      assert (Hnot : unsupportedKind (ast.BinaryExpr n1 Op n2) = true \/
                     failsSilently Decl (ast.BinaryExpr n1 Op n2) = true -> False).
      { intros [Hu | Hf]; [discriminate Hu |].
        cbn [failsSilently] in Hf. rewrite EOp in Hf. discriminate Hf. }
      cbn [parseValue] in H. rewrite EOp in H. unfold bind in H.
      cbn [stopsAt]. rewrite EOp.
      destruct (parseValue Unquote Decl fuel object n1 v) as [[[x okx] v1] | p |] eqn:EX;
        try discriminate.
      pose proof (parseValue_outcome _ _ _ _ _ _ _ EX) as HvX.
      apply IH in EX. destruct okx; cbn [negb] in H.
      * rewrite EX. destruct HvX as [[_ ->] | [E _]]; [| discriminate].
        destruct (parseValue Unquote Decl fuel object n2 v) as [[[y oky] v2] | p |] eqn:EY;
          try discriminate.
        apply IH in EY. destruct oky; cbn [negb] in H; inversion H; subst; [exact EY |].
        destruct EY as (m & Hs & Hk & _ & Hv). exists m.
        split; [exact Hs |]. split; [exact Hk |]. split; [| exact Hv].
        intros Hc. destruct (Hnot Hc).
      * inversion H; subst.
        destruct EX as (m & Hs & Hk & _ & Hv). exists m. rewrite Hs.
        split; [reflexivity |]. split; [exact Hk |]. split; [| exact Hv].
        intros Hc. destruct (Hnot Hc).
    + (* a value-spec *)
      destruct Values as [|v0 rest].
      * apply Hsilent; [reflexivity | exact H | reflexivity].
      * cbn [parseValue] in H. apply IH in H. cbn [stopsAt]. destruct ok; [exact H |].
        destruct H as (m & Hs & Hk & _ & Hv). exists m.
        split; [exact Hs |]. split; [exact Hk |]. split; [| exact Hv].
        intros [Hu | Hf]; [discriminate Hu | discriminate Hf].
Qed.

(** The loop over the elements, cut after a first part that goes through. *)
Lemma parseCompositeOptsElts_app (fuel : nat) (pre post : list ast.Node)
    (metricOption : opt) (help : option string) (v : visitor)
    (opts : opt) (help1 : option string) (v1 : visitor) :
  parseCompositeOptsElts Unquote Decl fuel pre metricOption help v = Ok ((Some opts, help1), v1) ->
  parseCompositeOptsElts Unquote Decl fuel (pre ++ post) metricOption help v
  = parseCompositeOptsElts Unquote Decl fuel post opts help1 v1.
Proof.
  revert metricOption help v.
  induction pre as [|elt pre IH]; intros metricOption help v H;
    cbn [parseCompositeOptsElts app] in H |- *.
  - inversion H; subst. reflexivity.
  - destruct elt as [ | | | | | | Key Value | | | | ]; try (apply IH; exact H).
    destruct Key as [ | object | | | | | | | | | ]; try (apply IH; exact H).
    destruct (mapGet validOptsFields (ast.Name object)); [| apply IH; exact H].
    unfold bind in H |- *.
    destruct (parseValue Unquote Decl fuel (ast.Name object) Value v)
      as [[[lit ok] v0] | p |]; try discriminate.
    destruct ok; cbn [negb] in H |- *; cbv iota in H |- *; [| discriminate].
    revert H.
    repeat match goal with
           | |- context [if ?b then _ else _] => destruct b
           end; intros H; apply IH; exact H.
Qed.

End Resolution.

(** ** Direct constructors *)

Section Constructors.
Variable Unquote : string -> option string.
Variable Decl : ast.Decls.

(** A recognised constructor called with at least one argument: the options
    are read from the first argument and, when they are there, one
    descriptor is recorded at its position. *)
Lemma parseCallerExpr_recognised (fuel : nat) (Fun : ast.Node) (methodName : string)
    (metricType : dto.MetricType) (arg0 : ast.Node) (rest : list ast.Node) (v : visitor) :
  callee Fun = Some methodName ->
  mapGet metricsType methodName = Some metricType ->
  parseCallerExpr Unquote Decl fuel Fun (arg0 :: rest) v =
  match parseOpts Unquote Decl fuel arg0 v with
  | Ok ((Some opts, help), v1) =>
    addMetric
      (dto.mkMetricFamily
         (Some (prometheus.BuildFQName (namespace opts) (subsystem opts) (name opts)))
         help (Some metricType))
      (fs v (ast.Pos arg0)) v1
  | Ok ((None, _), v1) => Ok (tt, v1)
  | Panic p => Panic p
  | OutOfFuel => OutOfFuel
  end.
Proof.
  intros HC HM. unfold parseCallerExpr.
  assert (HF : match Fun with
               | ast.Ident stmt =>
                 match mapGet metricsType (ast.Name stmt) with
                 | Some metricType => Some (metricType, ast.Name stmt)
                 | None => None
                 end
               | ast.SelectorExpr _ Sel =>
                 match mapGet metricsType (ast.Name Sel) with
                 | Some metricType => Some (metricType, ast.Name Sel)
                 | None => None
                 end
               | _ => None
               end = Some (metricType, methodName)).
  { destruct Fun; try discriminate HC; simpl in HC; inversion HC; subst;
      rewrite HM; reflexivity. }
  rewrite HF. unfold bind, index, Position, gets, ret.
  cbn [length Nat.ltb Nat.leb andb nth_error].
  destruct (parseOpts Unquote Decl fuel arg0 v) as [[[[opts|] help] v1] | p |]; reflexivity.
Qed.

(** A recognised constructor called without arguments: strict mode adds the
    one issue that names the callee and the expected number of arguments;
    lenient mode goes on to [call.Args[0]]. *)
Lemma parseCallerExpr_no_arguments (fuel : nat) (Fun : ast.Node) (methodName : string)
    (metricType : dto.MetricType) (v : visitor) :
  callee Fun = Some methodName ->
  mapGet metricsType methodName = Some metricType ->
  parseCallerExpr Unquote Decl fuel Fun [] v =
  if strict v then
    Ok (tt, mkVisitor (fs v) (metrics v)
              (issues v ++
               [mkIssue (fs v (ast.Pos Fun)) ""
                  (methodName ++ " should have at least " ++
                   Itoa (if HasSuffix methodName "Vec" then 2%Z else 1%Z) ++ " arguments")])
              (strict v))
  else Panic IndexOutOfRange.
Proof.
  intros HC HM. unfold parseCallerExpr.
  assert (HF : match Fun with
               | ast.Ident stmt =>
                 match mapGet metricsType (ast.Name stmt) with
                 | Some metricType => Some (metricType, ast.Name stmt)
                 | None => None
                 end
               | ast.SelectorExpr _ Sel =>
                 match mapGet metricsType (ast.Name Sel) with
                 | Some metricType => Some (metricType, ast.Name Sel)
                 | None => None
                 end
               | _ => None
               end = Some (metricType, methodName)).
  { destruct Fun; try discriminate HC; simpl in HC; inversion HC; subst;
      rewrite HM; reflexivity. }
  rewrite HF. unfold bind, index, Position, appendIssue, gets, ret.
  cbn [length Nat.ltb Nat.leb andb nth_error ast.Pos].
  destruct (strict v) eqn:ES; cbn [andb]; [rewrite ES |]; reflexivity.
Qed.

Lemma parseOpts_optionsLiteral (fuel : nat) (arg0 : ast.Node) (Elts : list ast.Node) :
  optionsLiteral Decl arg0 = Some Elts ->
  parseOpts Unquote Decl fuel arg0 = parseCompositeOpts Unquote Decl fuel Elts.
Proof.
  unfold optionsLiteral, parseOpts. intros H.
  destruct arg0 as [ | stmt | | | | ? ? Elts' | | | | | ]; try discriminate.
  - destruct (ast.Obj stmt) as [obj|]; [| discriminate].
    destruct (Decl obj) as [d|]; [| discriminate].
    destruct d as [ | | | | | | | | Lhs [|r Rhs] | | ]; try discriminate.
    destruct r; try discriminate. inversion H; subst. reflexivity.
  - inversion H; subst. reflexivity.
Qed.

Lemma optsField_Some (elt : ast.Node) (key : string) (Value : ast.Node) :
  optsField elt = Some (key, Value) ->
  exists object b,
    elt = ast.KeyValueExpr (ast.Ident object) Value /\ ast.Name object = key /\
    mapGet validOptsFields key = Some b.
Proof.
  unfold optsField. intros H.
  destruct elt as [ | | | | | | Key Value' | | | | ]; try discriminate.
  destruct Key as [ | object | | | | | | | | | ]; try discriminate.
  destruct (mapGet validOptsFields (ast.Name object)) as [b|] eqn:EM; [| discriminate].
  inversion H; subst. exists object, b. auto.
Qed.

Lemma optsField_None (fuel : nat) (elt : ast.Node) (Elts : list ast.Node)
    (metricOption : opt) (help : option string) :
  optsField elt = None ->
  parseCompositeOptsElts Unquote Decl fuel (elt :: Elts) metricOption help
  = parseCompositeOptsElts Unquote Decl fuel Elts metricOption help.
Proof.
  unfold optsField. intros H. cbn [parseCompositeOptsElts].
  destruct elt as [ | | | | | | Key Value' | | | | ]; try reflexivity.
  destruct Key as [ | object | | | | | | | | | ]; try reflexivity.
  destruct (mapGet validOptsFields (ast.Name object)); [discriminate | reflexivity].
Qed.

Lemma validOptsFields_keys (key : string) (b : bool) :
  mapGet validOptsFields key = Some b ->
  key = "Name" \/ key = "Namespace" \/ key = "Subsystem" \/ key = "Help".
Proof.
  unfold validOptsFields. cbn [mapGet]. intros H.
  destruct (String.eqb_spec "Name" key); [auto |].
  destruct (String.eqb_spec "Namespace" key); [auto |].
  destruct (String.eqb_spec "Subsystem" key); [auto |].
  destruct (String.eqb_spec "Help" key); [auto | discriminate].
Qed.

(** The loop over the elements of a literal whose fields all resolve: every
    field is read, the last one of each name wins. *)
Lemma parseCompositeOptsElts_resolved (fuel : nat) (Elts : list ast.Node)
    (metricOption : opt) (help : option string) (v : visitor) :
  resolvedFields Unquote Decl fuel Elts ->
  parseCompositeOptsElts Unquote Decl fuel Elts metricOption help v =
  Ok ((Some (mkOpt
               (orEmpty (fieldText Unquote Decl fuel "Namespace" Elts
                           (Some (namespace metricOption))))
               (orEmpty (fieldText Unquote Decl fuel "Subsystem" Elts
                           (Some (subsystem metricOption))))
               (orEmpty (fieldText Unquote Decl fuel "Name" Elts
                           (Some (name metricOption))))),
       fieldText Unquote Decl fuel "Help" Elts help), v).
Proof.
  revert metricOption help. induction Elts as [|elt Elts IH]; intros metricOption help Hres.
  - destruct metricOption. reflexivity.
  - assert (Htail : resolvedFields Unquote Decl fuel Elts).
    { intros e k val Hin. apply Hres. right. exact Hin. }
    destruct (optsField elt) as [[key Value]|] eqn:EF.
    + destruct (Hres elt key Value (or_introl eq_refl) EF) as [s Hs].
      cbn [fieldText]. rewrite EF, Hs.
      apply optsField_Some in EF. destruct EF as (object & b & -> & HK & HM).
      cbn [parseCompositeOptsElts]. rewrite HK, HM.
      unfold bind at 1.
      rewrite (resolvesTo_parseValue Unquote Decl _ _ _ Hs key v). cbn [negb].
      apply validOptsFields_keys in HM.
      destruct HM as [-> | [-> | [-> | ->]]];
        cbn [String.eqb Ascii.eqb Bool.eqb]; rewrite IH by exact Htail; reflexivity.
    + cbn [fieldText]. rewrite EF. rewrite optsField_None by exact EF.
      apply IH. exact Htail.
Qed.

Lemma fieldText_absent (fuel : nat) (key : string) (Elts : list ast.Node) :
  orEmpty (fieldText Unquote Decl fuel key Elts (Some ""))
  = orEmpty (fieldText Unquote Decl fuel key Elts None).
Proof.
  induction Elts as [|elt Elts IH]; cbn [fieldText]; [reflexivity |].
  destruct (optsField elt) as [[key' Value]|]; [| exact IH].
  destruct (key' =? key); [reflexivity | exact IH].
Qed.

Lemma string_append_assoc (a b c : string) : (a ++ b) ++ c = a ++ (b ++ c).
Proof. induction a as [|x a IH]; simpl; [reflexivity | rewrite IH; reflexivity]. Qed.

Lemma BuildFQName_join (ns ss nm : string) :
  prometheus.BuildFQName ns ss nm =
  if nm =? "" then "" else joinNonEmpty "_" [ns; ss; nm].
Proof.
  unfold prometheus.BuildFQName, joinNonEmpty.
  destruct nm as [|c nm]; [reflexivity |].
  destruct ns as [|a ns], ss as [|b ss]; cbn [String.eqb negb filter String.concat append];
    rewrite ?string_append_assoc; cbn [append]; rewrite ?string_append_assoc; reflexivity.
Qed.

End Constructors.

Section ConstructorClaims.
Variable Unquote : string -> option string.
Variable Decl : ast.Decls.

(** C5, as the code has it: a recognised constructor configured with a
    struct literal (its first argument, or what the identifier in that place
    was assigned) whose Namespace, Subsystem, Name and Help fields resolve
    to strings records one descriptor; its qualified name is what
    [BuildFQName] makes of the three segments, which is their underscore-join
    without the empty ones when the name is not empty, and the empty string
    when it is; its help is the text the Help field resolves to, for a
    literal its unquoted text. *)
Theorem constructor_with_literal_fields (fuel : nat) (Fun : ast.Node) (methodName : string)
    (metricType : dto.MetricType) (arg0 : ast.Node)
    (Elts rest : list ast.Node) (v : visitor) :
  callee Fun = Some methodName ->
  mapGet metricsType methodName = Some metricType ->
  optionsLiteral Decl arg0 = Some Elts ->
  resolvedFields Unquote Decl fuel Elts ->
  (forall p lit, resolvesTo Unquote Decl (S fuel) (ast.BasicLit p token.STRING lit)
                 = Unquote lit) /\
  exists qualifiedName,
    parseCallerExpr Unquote Decl fuel Fun (arg0 :: rest) v =
    Ok (tt, mkVisitor (fs v)
              (metrics v ++
               [(dto.mkMetricFamily (Some qualifiedName)
                   (fieldText Unquote Decl fuel "Help" Elts None) (Some metricType),
                 fs v (ast.Pos arg0))])
              (issues v) (strict v)) /\
    qualifiedName =
    (if orEmpty (fieldText Unquote Decl fuel "Name" Elts None) =? "" then ""
     else joinNonEmpty "_"
            [ orEmpty (fieldText Unquote Decl fuel "Namespace" Elts None);
              orEmpty (fieldText Unquote Decl fuel "Subsystem" Elts None);
              orEmpty (fieldText Unquote Decl fuel "Name" Elts None) ]).
Proof.
  intros HC HM HO Hres. split.
  { intros p lit. unfold resolvesTo. cbn [parseValue token.Token_eqb].
    unfold bind, mustUnquote, ret. destruct (Unquote lit); reflexivity. }
  exists (prometheus.BuildFQName
            (orEmpty (fieldText Unquote Decl fuel "Namespace" Elts None))
            (orEmpty (fieldText Unquote Decl fuel "Subsystem" Elts None))
            (orEmpty (fieldText Unquote Decl fuel "Name" Elts None))).
  split; [| apply BuildFQName_join].
  rewrite (parseCallerExpr_recognised Unquote Decl _ _ _ _ _ _ _ HC HM).
  rewrite (parseOpts_optionsLiteral Unquote Decl _ _ _ HO). unfold parseCompositeOpts.
  rewrite parseCompositeOptsElts_resolved by exact Hres.
  cbn [namespace subsystem name]. rewrite !fieldText_absent. reflexivity.
Qed.

(** C7, as the code has it: when the fields before it go through and the
    value of an allow-listed field fails to resolve, the call is left
    without a descriptor and [parseValue] has answered [("", false)].  The
    resolution gave up at one node [m]: the value itself, or the
    sub-expression it reached through the declarations of identifiers and
    the operands of [+].  In strict mode, when [m] is of unsupported kind,
    the visitor has got exactly the issue for [m], which names the field and
    the node type; when [m] is one of the shapes of the four handled kinds
    that fail silently, and in lenient mode, the visitor is as it was before
    the resolution. *)
Theorem failing_field_aborts_extraction (fuel : nat) (Fun : ast.Node) (methodName : string)
    (metricType : dto.MetricType) (arg0 : ast.Node)
    (pre post rest : list ast.Node) (key : ast.IdentData) (Value : ast.Node)
    (v v1 v2 : visitor) (opts : opt) (help : option string) (s : string) :
  callee Fun = Some methodName ->
  mapGet metricsType methodName = Some metricType ->
  optionsLiteral Decl arg0
  = Some (pre ++ ast.KeyValueExpr (ast.Ident key) Value :: post)%list ->
  mapGet validOptsFields (ast.Name key) <> None ->
  parseCompositeOptsElts Unquote Decl fuel pre (mkOpt "" "" "") None v
  = Ok ((Some opts, help), v1) ->
  parseValue Unquote Decl fuel (ast.Name key) Value v1 = Ok ((s, false), v2) ->
  parseCallerExpr Unquote Decl fuel Fun (arg0 :: rest) v = Ok (tt, v2) /\
  metrics v2 = metrics v /\
  s = "" /\
  exists m,
    stopsAt Decl fuel Value = Some m /\
    (unsupportedKind m = true \/ failsSilently Decl m = true) /\
    (unsupportedKind Value = true \/ failsSilently Decl Value = true -> m = Value) /\
    v2 = (if strict v && unsupportedKind m
          then mkVisitor (fs v1) (metrics v1)
                 (issues v1 ++ [unsupportedIssue v (ast.Name key) m]) (strict v1)
          else v1).
Proof.
  intros HC HM HO HK Hpre HV.
  pose proof (parseCompositeOptsElts_structural Unquote Decl _ _ _ _ _ _ _ Hpre)
    as (Hfs & Hstrict & _).
  pose proof (parseCompositeOptsElts_sameMetrics Unquote Decl _ _ _ _ _ _ _ Hpre) as Hm1.
  pose proof (parseValue_sameMetrics Unquote Decl _ _ _ _ _ _ HV) as Hm2.
  unfold sameMetrics in Hm1, Hm2.
  split; [| split; [congruence | ]].
  - rewrite (parseCallerExpr_recognised Unquote Decl _ _ _ _ _ _ _ HC HM).
    rewrite (parseOpts_optionsLiteral Unquote Decl _ _ _ HO). unfold parseCompositeOpts.
    rewrite (parseCompositeOptsElts_app Unquote Decl _ _ _ _ _ _ _ _ _ Hpre).
    cbn [parseCompositeOptsElts].
    destruct (mapGet validOptsFields (ast.Name key)); [| congruence].
    unfold bind. rewrite HV. reflexivity.
  - destruct (parseValue_outcome Unquote Decl _ _ _ _ _ _ _ HV)
      as [[E _] | (_ & Hs & _)]; [discriminate |].
    split; [exact Hs |].
    destruct (parseValue_stops Unquote Decl _ _ _ _ _ _ _ HV) as (m & Hstop & Hkind & Hself & Hv2).
    exists m. split; [exact Hstop |]. split; [exact Hkind |]. split; [exact Hself |].
    rewrite Hv2, Hstrict. unfold unsupportedIssue. rewrite Hfs. reflexivity.
Qed.

End ConstructorClaims.

(** C5 on [prometheus.NewCounter] with the fields [Samples.fullFields]. *)
Lemma constructor_with_literal_fields_witness :
  resolvedFields Samples.unquotePlain Samples.noDecl 2 Samples.fullFields /\
  exists qualifiedName,
    parseCallerExpr Samples.unquotePlain Samples.noDecl 2
      (Samples.selector 10%Z "prometheus" "NewCounter")
      [ast.CompositeLit (Some (Samples.selector 20%Z "prometheus" "CounterOpts")) 22%Z
         Samples.fullFields]
      (mkVisitor Samples.fset [] [] true) =
    Ok (tt, mkVisitor Samples.fset
              [(dto.mkMetricFamily (Some qualifiedName) (Some "Requests served.")
                  (Some dto.MetricType_COUNTER), Samples.fset 20%Z)]
              [] true) /\
    qualifiedName = "app_http_requests_total".
Proof.
  assert (Hres : resolvedFields Samples.unquotePlain Samples.noDecl 2 Samples.fullFields).
  { intros elt key Value Hin HF.
    repeat (destruct Hin as [<- | Hin]; [inversion HF; subst; eexists; reflexivity |]).
    destruct Hin. }
  split; [exact Hres |].
  exact (proj2 (constructor_with_literal_fields Samples.unquotePlain Samples.noDecl 2
                  (Samples.selector 10%Z "prometheus" "NewCounter") "NewCounter"
                  dto.MetricType_COUNTER
                  (ast.CompositeLit (Some (Samples.selector 20%Z "prometheus" "CounterOpts"))
                     22%Z Samples.fullFields)
                  Samples.fullFields [] (mkVisitor Samples.fset [] [] true)
                  eq_refl eq_refl eq_refl Hres)).
Defined.

(** C5 fails as stated: with [Namespace: "app"] and no Name, the recorded
    qualified name is empty, while the underscore-join of the non-empty
    segments is [app]. *)
Lemma empty_name_gives_empty_qualified_name :
  Visit Samples.unquotePlain Samples.noDecl 5 Samples.counterNoName
    (mkVisitor Samples.fset [] [] true) =
  Ok (tt, mkVisitor Samples.fset
            [(dto.mkMetricFamily (Some "") (Some "requests") (Some dto.MetricType_COUNTER),
              Samples.fset 20%Z)]
            [] true) /\
  joinNonEmpty "_" ["app"; ""; ""] = "app".
Proof. split; reflexivity. Qed.

(** C7 on [prometheus.NewCounter(prometheus.CounterOpts{Name: x, Help: "requests"})]
    with [var x = "a" + name()], in strict mode: the resolution of [x] goes
    into its declaration, gives up at the call [name()], and the visitor has
    one issue, for that call, and no descriptor. *)
Lemma failing_field_aborts_extraction_witness :
  parseCallerExpr Samples.unquotePlain Samples.declVarCall 5
    (Samples.selector 10%Z "prometheus" "NewCounter")
    [ast.CompositeLit (Some (Samples.selector 20%Z "prometheus" "CounterOpts")) 22%Z
       ([] ++ ast.KeyValueExpr (ast.Ident (ast.mkIdent 30%Z "Name" None))
                (Samples.identOf 31%Z "x" 0) :: Samples.helpField)]
    (mkVisitor Samples.fset [] [] true) =
  Ok (tt, mkVisitor Samples.fset []
            [mkIssue (Samples.fset 52%Z) ""
               "parsing field Name with type *ast.CallExpr is not supported"] true) /\
  exists m,
    stopsAt Samples.declVarCall 5 (Samples.identOf 31%Z "x" 0) = Some m /\
    m = ast.CallExpr (Samples.ident 52%Z "name") [] /\
    unsupportedKind m = true.
Proof.
  destruct (failing_field_aborts_extraction Samples.unquotePlain Samples.declVarCall 5
              (Samples.selector 10%Z "prometheus" "NewCounter") "NewCounter"
              dto.MetricType_COUNTER
              (ast.CompositeLit (Some (Samples.selector 20%Z "prometheus" "CounterOpts")) 22%Z
                 ([] ++ ast.KeyValueExpr (ast.Ident (ast.mkIdent 30%Z "Name" None))
                          (Samples.identOf 31%Z "x" 0) :: Samples.helpField))
              [] Samples.helpField [] (ast.mkIdent 30%Z "Name" None)
              (Samples.identOf 31%Z "x" 0)
              (mkVisitor Samples.fset [] [] true) (mkVisitor Samples.fset [] [] true)
              (mkVisitor Samples.fset []
                 [mkIssue (Samples.fset 52%Z) ""
                    "parsing field Name with type *ast.CallExpr is not supported"] true)
              (mkOpt "" "" "") None ""
              eq_refl eq_refl eq_refl ltac:(discriminate) eq_refl eq_refl)
    as (Hcall & _ & _ & m & Hstop & _ & _ & _).
  split; [exact Hcall |].
  exists m. split; [exact Hstop |].
  assert (Hm : m = ast.CallExpr (Samples.ident 52%Z "name") []).
  { vm_compute in Hstop. inversion Hstop. reflexivity. }
  split; [exact Hm | rewrite Hm; reflexivity].
Defined.

(** C7 fails as stated: in strict mode, with [Name: metricName] where the
    identifier is not resolved, the resolution fails and the call is dropped,
    and no issue is added. *)
Lemma unresolved_identifier_fails_without_issue :
  parseValue Samples.unquotePlain Samples.noDecl 5 "Name" (Samples.ident 31%Z "metricName")
    (mkVisitor Samples.fset [] [] true) = Ok (("", false), mkVisitor Samples.fset [] [] true) /\
  Visit Samples.unquotePlain Samples.noDecl 5 Samples.counterUnresolvedName
    (mkVisitor Samples.fset [] [] true) = Ok (tt, mkVisitor Samples.fset [] [] true).
Proof. split; reflexivity. Qed.

(** ** Where the code departs from the claims *)

(** C1: in strict mode [prometheus.NewCounterVec] called with one argument
    gets no issue and its descriptor is recorded, although the same code
    tells a call without arguments that NewCounterVec should have at least 2
    arguments: the guard compares the number of arguments with 1, not with
    [argNum]. *)
Theorem vec_constructor_accepts_one_argument (fuel : nat) (fs : token.Pos -> token.Position) :
  Visit Samples.unquotePlain Samples.noDecl (S fuel) Samples.vecOneArg
    (mkVisitor fs [] [] true) =
  Ok (tt, mkVisitor fs
            [(dto.mkMetricFamily (Some "foo_total") (Some "bar") (Some dto.MetricType_COUNTER),
              fs 20%Z)]
            [] true) /\
  Visit Samples.unquotePlain Samples.noDecl fuel Samples.vecNoArgs
    (mkVisitor fs [] [] true) =
  Ok (tt, mkVisitor fs []
            [mkIssue (fs 10%Z) "" "NewCounterVec should have at least 2 arguments"] true).
Proof.
  split.
  - unfold Samples.vecOneArg. cbn [Visit].
    rewrite (parseCallerExpr_recognised Samples.unquotePlain Samples.noDecl (S fuel) _
               "NewCounterVec" dto.MetricType_COUNTER) by reflexivity.
    reflexivity.
  - reflexivity.
Qed.

(** C2: in lenient mode a run over a file that holds [prometheus.NewCounter()],
    or [ch <- prometheus.MustNewConstMetric()], does not complete: the guard
    on the number of arguments is skipped and [call.Args[0]] panics. *)
Theorem lenient_run_panics_without_arguments (Unquote : string -> option string)
    (Lint : dto.MetricFamily -> option (list promlint.Problem))
    (rangeOrder : list (dto.MetricFamily * token.Position) ->
                  list (dto.MetricFamily * token.Position))
    (Decl : ast.Decls) (fuel : nat) (fs : token.Pos -> token.Position) :
  Run Unquote Lint rangeOrder Decl fuel fs [Samples.file [Samples.counterNoArgs]] false
  = Panic IndexOutOfRange /\
  Run Unquote Lint rangeOrder Decl fuel fs [Samples.file [Samples.sendNoArgs]] false
  = Panic IndexOutOfRange.
Proof.
  split; unfold Run; cbn [walkFiles]; unfold bind at 1 2; rewrite Walk_eq;
    unfold bind at 1; cbn [Samples.file Visit ret];
    cbn [walkFiles Samples.counterNoArgs Samples.sendNoArgs]; unfold bind at 1;
    rewrite Walk_eq; reflexivity.
Qed.

(** C4: the descriptor recorded for
    [ch <- prometheus.MustNewConstMetric(desc, valueType(), 1.0)] has no
    kind, in either mode: the switch on the second argument has no arm for
    an expression that is neither an identifier nor a selector. *)
Theorem const_metric_descriptor_without_kind (fuel : nat) (fs : token.Pos -> token.Position)
    (strict : bool) :
  Visit Samples.unquotePlain Samples.declDesc (S fuel) Samples.sendCallKind
    (mkVisitor fs [] [] strict) =
  Ok (tt, mkVisitor fs
            [(dto.mkMetricFamily (Some "my_metric") (Some "help text") None, fs 71%Z)]
            [] strict).
Proof.
  destruct strict; reflexivity.
Qed.

(** C6: the kinds the const-metric functions give.  [getConstMetricType]
    maps the names CounterValue and GaugeValue and answers Untyped for any
    other name; the histogram and summary variants have their fixed kind;
    the send of the spec resolves to the counter [my_metric].  With
    [kinds[i]] as second argument, neither an identifier nor a selector, the
    descriptor is recorded without a kind instead of Untyped. *)
Theorem const_metric_kinds (fuel : nat) (fs : token.Pos -> token.Position) (strict : bool) :
  let recorded (send : ast.Node) :=
    Visit Samples.unquotePlain Samples.declDesc (S fuel) send (mkVisitor fs [] [] strict) in
  let descriptor (kind : option dto.MetricType) :=
    Ok (tt, mkVisitor fs
              [(dto.mkMetricFamily (Some "my_metric") (Some "help text") kind, fs 71%Z)]
              [] strict) in
  (forall name,
      getConstMetricType name =
      Some (if name =? "CounterValue" then dto.MetricType_COUNTER
            else if name =? "GaugeValue" then dto.MetricType_GAUGE
            else dto.MetricType_UNTYPED)) /\
  recorded Samples.sendCounter = descriptor (Some dto.MetricType_COUNTER) /\
  recorded Samples.sendGauge = descriptor (Some dto.MetricType_GAUGE) /\
  recorded Samples.sendUntyped = descriptor (Some dto.MetricType_UNTYPED) /\
  recorded Samples.sendHistogram = descriptor (Some dto.MetricType_HISTOGRAM) /\
  recorded Samples.sendSummary = descriptor (Some dto.MetricType_SUMMARY) /\
  recorded Samples.sendIndexKind = descriptor None.
Proof.
  intros recorded descriptor. split.
  - intros name. unfold getConstMetricType.
    destruct (name =? "CounterValue"); [reflexivity |].
    destruct (name =? "GaugeValue"); reflexivity.
  - unfold recorded, descriptor. destruct strict; repeat split; reflexivity.
Qed.

(** * Further properties of the visitor *)

(** ** Invariants of the traversal *)

Lemma lenientSame_refl (v : visitor) : lenientSame v v.
Proof. intros Hs. auto. Qed.

Lemma lenientSame_trans (v1 v2 v3 : visitor) :
  lenientSame v1 v2 -> lenientSame v2 v3 -> lenientSame v1 v3.
Proof.
  intros H12 H23 Hs. destruct (H12 Hs) as [Hi Hs2]. destruct (H23 Hs2) as [Hi3 Hs3].
  split; congruence.
Qed.

Lemma recordsNamed_refl (v : visitor) : recordsNamed v v.
Proof. exists []. rewrite app_nil_r. split; [reflexivity | constructor]. Qed.

Lemma recordsNamed_trans (v1 v2 v3 : visitor) :
  recordsNamed v1 v2 -> recordsNamed v2 v3 -> recordsNamed v1 v3.
Proof.
  intros (a1 & H1 & F1) (a2 & H2 & F2). exists (a1 ++ a2)%list. split.
  - rewrite H2, H1, app_assoc. reflexivity.
  - apply Forall_app. split; assumption.
Qed.

(** In lenient mode the branch taken after reading [v.strict] is the one
    for [false]. *)
Lemma lenient_gets_strict {A : Type} (k : bool -> M A) :
  preserves lenientSame (k false) -> preserves lenientSame (bind (gets strict) k).
Proof.
  intros Hk v a v' H Hs. unfold bind, gets in H. rewrite Hs in H.
  exact (Hk v a v' H Hs).
Qed.

Lemma addMetric_lenientSame (m : dto.MetricFamily) (pos : token.Position) :
  preserves lenientSame (addMetric m pos).
Proof. intros v a v' H Hs. inversion H; subst. simpl. auto. Qed.

Lemma appendIssue_recordsNamed (i : Issue) : preserves recordsNamed (appendIssue i).
Proof.
  intros v a v' H. inversion H; subst. exists []. simpl. rewrite app_nil_r.
  split; [reflexivity | constructor].
Qed.

Lemma addMetric_recordsNamed (m : dto.MetricFamily) (pos : token.Position) :
  dto.Name m <> None -> preserves recordsNamed (addMetric m pos).
Proof.
  intros Hm v a v' H. inversion H; subst. exists [(m, pos)].
  split; [reflexivity | constructor; [exact Hm | constructor]].
Qed.

#[local] Hint Resolve lenientSame_refl recordsNamed_refl : visitor.
#[local] Hint Resolve addMetric_lenientSame appendIssue_recordsNamed : visitor.
#[local] Hint Extern 1 (preserves recordsNamed (addMetric _ _)) =>
  apply addMetric_recordsNamed; simpl; discriminate : visitor.

(** The step after reading the mode of a lenient visitor. *)
Ltac step_lenient :=
  apply lenient_gets_strict; cbv beta; rewrite ?Bool.andb_false_r; cbv beta iota.

Section TraversalInvariants.
Variable Unquote : string -> option string.
Variable Decl : ast.Decls.

(** Whatever every visit keeps, the walk of a tree keeps. *)
Section WalkKeeps.
Variable R : visitor -> visitor -> Prop.
Hypothesis R_refl : forall v, R v v.
Hypothesis R_trans : forall v1 v2 v3, R v1 v2 -> R v2 v3 -> R v1 v3.
Hypothesis Visit_keeps : forall fuel n, preserves R (Visit Unquote Decl fuel n).

Lemma walkFiles_keeps (fuel : nat) (l : list ast.Node) :
  Forall (fun c => preserves R (Walk Unquote Decl fuel c)) l ->
  preserves R (walkFiles Unquote Decl fuel l).
Proof.
  induction 1 as [|c l Hc Hl IH]; simpl.
  - apply preserves_ret. exact R_refl.
  - apply preserves_bind; [exact R_trans | exact Hc | intros _; exact IH].
Qed.

Lemma Walk_keeps (fuel : nat) (node : ast.Node) :
  preserves R (Walk Unquote Decl fuel node).
Proof.
  induction node using Node_induction; rewrite Walk_eq;
    (apply preserves_bind; [exact R_trans | apply Visit_keeps | intros _]);
    repeat first
      [ assumption
      | apply walkFiles_keeps; assumption
      | apply preserves_ret; exact R_refl
      | match goal with
        | H : forall t, ?o = Some t -> _ |- preserves _ (match ?o with _ => _ end) =>
          destruct o; [apply (H _ eq_refl) | apply preserves_ret; exact R_refl]
        end
      | apply preserves_bind; [exact R_trans | | intros _] ].
Qed.

Lemma walkFiles_keeps_all (fuel : nat) (files : list ast.Node) :
  preserves R (walkFiles Unquote Decl fuel files).
Proof.
  apply walkFiles_keeps, Forall_forall. intros c _. apply Walk_keeps.
Qed.

End WalkKeeps.

Lemma parseValue_lenientSame (fuel : nat) (object : string) (n : ast.Node) :
  preserves lenientSame (parseValue Unquote Decl fuel object n).
Proof.
  revert object n. induction fuel as [|fuel IH]; intros object n; simpl.
  - auto with visitor.
  - destruct n; repeat first
      [ apply IH
      | apply mustUnquote_preserves; exact lenientSame_refl
      | step_lenient
      | step_preserves lenientSame_trans ].
Qed.

Lemma parseCompositeOptsElts_lenientSame (fuel : nat) (Elts : list ast.Node)
    (metricOption : opt) (help : option string) :
  preserves lenientSame (parseCompositeOptsElts Unquote Decl fuel Elts metricOption help).
Proof.
  revert metricOption help. induction Elts as [|elt Elts IH]; intros; simpl.
  - auto with visitor.
  - repeat first
      [ apply IH | apply parseValue_lenientSame | step_preserves lenientSame_trans ].
Qed.

Lemma parseNewDescCallExpr_lenientSame (fuel : nat) (Fun : ast.Node) (Args : list ast.Node) :
  preserves lenientSame (parseNewDescCallExpr Unquote Decl fuel Fun Args).
Proof.
  unfold parseNewDescCallExpr.
  repeat first
    [ apply parseValue_lenientSame | step_lenient | step_preserves lenientSame_trans ].
Qed.

Lemma Visit_lenientSame (fuel : nat) (n : ast.Node) :
  preserves lenientSame (Visit Unquote Decl fuel n).
Proof.
  destruct n; simpl; auto with visitor.
  - unfold parseCallerExpr, parseOpts, parseCompositeOpts.
    repeat first
      [ apply parseCompositeOptsElts_lenientSame
      | step_lenient
      | step_preserves lenientSame_trans ].
  - unfold parseSendMetricChanExpr, parseConstMetricOpts.
    repeat first
      [ apply parseNewDescCallExpr_lenientSame
      | step_lenient
      | step_preserves lenientSame_trans ].
Qed.

Lemma parseValue_recordsNamed (fuel : nat) (object : string) (n : ast.Node) :
  preserves recordsNamed (parseValue Unquote Decl fuel object n).
Proof.
  intros v a v' H. apply parseValue_sameMetrics in H. unfold sameMetrics in H.
  exists []. rewrite app_nil_r. split; [exact H | constructor].
Qed.

Lemma parseCompositeOptsElts_recordsNamed (fuel : nat) (Elts : list ast.Node)
    (metricOption : opt) (help : option string) :
  preserves recordsNamed (parseCompositeOptsElts Unquote Decl fuel Elts metricOption help).
Proof.
  intros v a v' H. apply parseCompositeOptsElts_sameMetrics in H. unfold sameMetrics in H.
  exists []. rewrite app_nil_r. split; [exact H | constructor].
Qed.

Lemma Visit_recordsNamed (fuel : nat) (n : ast.Node) :
  preserves recordsNamed (Visit Unquote Decl fuel n).
Proof.
  destruct n; simpl; auto with visitor.
  - unfold parseCallerExpr, parseOpts, parseCompositeOpts.
    repeat first
      [ apply parseCompositeOptsElts_recordsNamed
      | step_preserves recordsNamed_trans ].
  - unfold parseSendMetricChanExpr, parseConstMetricOpts, parseNewDescCallExpr.
    repeat first
      [ apply parseValue_recordsNamed
      | step_preserves recordsNamed_trans ].
Qed.

End TraversalInvariants.

(** ** The traversal as a list of visits *)

Section Preorder.
Variable Unquote : string -> option string.
Variable Decl : ast.Decls.

Lemma visitAll_app (fuel : nat) (l1 l2 : list ast.Node) (v : visitor) :
  visitAll Unquote Decl fuel (l1 ++ l2) v =
  (visitAll Unquote Decl fuel l1 ;; visitAll Unquote Decl fuel l2) v.
Proof.
  revert v. induction l1 as [|n l1 IH]; intros v; [reflexivity |].
  cbn [app visitAll]. unfold bind in IH |- *.
  destruct (Visit Unquote Decl fuel n v) as [[[] v1] | p |]; [apply IH | reflexivity ..].
Qed.

Lemma bind_pointwise {A B : Type} (c c' : M A) (k k' : A -> M B) (v : visitor) :
  (forall w, c w = c' w) -> (forall a w, k a w = k' a w) -> bind c k v = bind c' k' v.
Proof.
  intros Hc Hk. unfold bind. rewrite Hc.
  destruct (c' v) as [[a v1] | p |]; [apply Hk | reflexivity ..].
Qed.

Lemma preorder_children (l : list ast.Node) :
  (fix all (l : list ast.Node) : list ast.Node :=
     match l with
     | [] => []
     | c :: l => (preorder c ++ all l)%list
     end) l = flat_map preorder l.
Proof.
  induction l as [|c l IH]; simpl; [reflexivity | rewrite IH; reflexivity].
Qed.

Lemma preorder_eq (node : ast.Node) :
  preorder node =
  node ::
  match node with
  | ast.BasicLit _ _ _ => []
  | ast.Ident _ => []
  | ast.BinaryExpr X _ Y => (preorder X ++ preorder Y)%list
  | ast.CallExpr Fun Args => (preorder Fun ++ flat_map preorder Args)%list
  | ast.SelectorExpr X _ => preorder X
  | ast.CompositeLit Type_ _ Elts =>
    (match Type_ with
     | Some c => preorder c
     | None => []
     end ++ flat_map preorder Elts)%list
  | ast.KeyValueExpr Key Value => (preorder Key ++ preorder Value)%list
  | ast.SendStmt Chan Value => (preorder Chan ++ preorder Value)%list
  | ast.AssignStmt Lhs Rhs => (flat_map preorder Lhs ++ flat_map preorder Rhs)%list
  | ast.ValueSpec _ Type_ Values =>
    (match Type_ with
     | Some c => preorder c
     | None => []
     end ++ flat_map preorder Values)%list
  | ast.Other _ _ children => flat_map preorder children
  end.
Proof.
  destruct node; simpl; rewrite ?preorder_children; reflexivity.
Qed.

Lemma walkFiles_visits (fuel : nat) (l : list ast.Node) :
  Forall (fun c => forall v, Walk Unquote Decl fuel c v
                             = visitAll Unquote Decl fuel (preorder c) v) l ->
  forall v, walkFiles Unquote Decl fuel l v
            = visitAll Unquote Decl fuel (flat_map preorder l) v.
Proof.
  induction 1 as [|c l Hc Hl IH]; intros v; [reflexivity |].
  cbn [walkFiles flat_map]. rewrite visitAll_app.
  apply bind_pointwise; [exact Hc | intros _ w; apply IH].
Qed.

Lemma Walk_visits (fuel : nat) (node : ast.Node) (v : visitor) :
  Walk Unquote Decl fuel node v = visitAll Unquote Decl fuel (preorder node) v.
Proof.
  revert v. induction node using Node_induction; intros v;
    rewrite Walk_eq, preorder_eq; cbn [visitAll];
    (apply bind_pointwise; [reflexivity | intros _ w]);
    repeat first
      [ reflexivity
      | match goal with
        | H : forall v, Walk _ _ _ ?n v = _ |- Walk _ _ _ ?n _ = _ => apply H
        | |- walkFiles _ _ _ _ _ = _ => apply walkFiles_visits; assumption
        | H : forall t, ?o = Some t -> _ |- context [match ?o with _ => _ end] =>
          destruct o as [t|]; [specialize (H t eq_refl) | clear H]
        | |- _ = visitAll _ _ _ ([] ++ _) _ => cbn [app]
        | |- bind (ret tt) _ _ = _ => unfold bind at 1; unfold ret at 1; cbv beta iota
        | |- _ = visitAll _ _ _ (_ ++ _) _ =>
          rewrite visitAll_app; apply bind_pointwise; [intros ? | intros _ ?]
        end ].
Qed.

(** X1: the walk over the files is the visit of every node of every file,
    once each, file after file, a node before its children and the
    children from left to right. *)
Theorem walk_visits_every_node_in_source_order (fuel : nat) (files : list ast.Node)
    (v : visitor) :
  walkFiles Unquote Decl fuel files v =
  visitAll Unquote Decl fuel (flat_map preorder files) v.
Proof.
  apply walkFiles_visits, Forall_forall. intros c _ w. apply Walk_visits.
Qed.

End Preorder.

(** ** The run as a whole *)

Lemma StronglySorted_map {A B : Type} (f : A -> B) (R : B -> B -> Prop) (l : list A) :
  StronglySorted (fun a b => R (f a) (f b)) l -> StronglySorted R (map f l).
Proof.
  induction 1 as [|x l Hl IH Hx]; simpl; constructor; [exact IH |].
  apply Forall_map. exact Hx.
Qed.

(** Two sorted lists of strings with the same elements are the same list. *)
Lemma sorted_strings_unique (l1 l2 : list string) :
  StronglySorted (fun a b => (a <=? b) = true) l1 ->
  StronglySorted (fun a b => (a <=? b) = true) l2 ->
  Permutation l1 l2 -> l1 = l2.
Proof.
  revert l2. induction l1 as [|x l1 IH]; intros l2 H1 H2 HP.
  - apply Permutation_nil in HP. congruence.
  - destruct l2 as [|y l2]; [apply Permutation_sym, Permutation_nil in HP; discriminate |].
    inversion H1 as [|? ? H1' Hx]; subst. inversion H2 as [|? ? H2' Hy]; subst.
    assert (Exy : x = y).
    { assert (Hyin : In y (x :: l1))
        by (eapply Permutation_in; [apply Permutation_sym; exact HP | left; reflexivity]).
      assert (Hxin : In x (y :: l2))
        by (eapply Permutation_in; [exact HP | left; reflexivity]).
      destruct Hyin as [E | Hyin]; [exact E |].
      destruct Hxin as [E | Hxin]; [symmetry; exact E |].
      rewrite Forall_forall in Hx, Hy.
      apply String.leb_antisym; [apply Hx | apply Hy]; assumption. }
    subst y. f_equal. apply IH; try assumption.
    eapply Permutation_cons_inv. exact HP.
Qed.

Section RunAsAWhole.
Variable Unquote : string -> option string.
Variable Lint : dto.MetricFamily -> option (list promlint.Problem).
Variable Decl : ast.Decls.

Lemma lintMetrics_lintIssues (ms : list (dto.MetricFamily * token.Position)) (v : visitor) :
  lintMetrics Lint ms v =
  match lintIssues Lint ms with
  | Some semantic =>
    Ok (tt, mkVisitor (fs v) (metrics v) (issues v ++ semantic) (strict v))
  | None => Panic LintError
  end.
Proof.
  revert v. induction ms as [|[m pos] ms IH]; intros v; simpl.
  - destruct v. simpl. rewrite app_nil_r. reflexivity.
  - destruct (Lint m) as [problems|]; [| reflexivity].
    unfold bind, appendIssues. rewrite IH. simpl.
    destruct (lintIssues Lint ms); [| reflexivity].
    rewrite <- app_assoc. reflexivity.
Qed.

Lemma lintIssues_None (ms : list (dto.MetricFamily * token.Position)) :
  lintIssues Lint ms = None <-> Exists (fun e => Lint (fst e) = None) ms.
Proof.
  induction ms as [|[m pos] ms IH]; simpl.
  - split; [discriminate | intros H; inversion H].
  - destruct (Lint m) as [problems|] eqn:EL.
    + destruct (lintIssues Lint ms).
      * split; [discriminate |]. intros H. inversion H as [? ? H0 | ? ? H0]; subst.
        -- simpl in H0. congruence.
        -- apply IH in H0. discriminate.
      * split; [| reflexivity]. intros _. right. apply IH. reflexivity.
    + split; [| reflexivity]. intros _. left. exact EL.
Qed.

Lemma lintIssues_wraps (ms : list (dto.MetricFamily * token.Position)) (semantic : list Issue) :
  lintIssues Lint ms = Some semantic -> Forall (wraps Lint ms) semantic.
Proof.
  revert semantic. induction ms as [|[m pos] ms IH]; intros semantic H; simpl in H.
  - inversion H; subst. constructor.
  - destruct (Lint m) as [problems|] eqn:EL; [| discriminate].
    destruct (lintIssues Lint ms) as [rest|]; [| discriminate].
    inversion H; subst. apply Forall_app. split.
    + apply Forall_forall. intros i Hin. apply in_map_iff in Hin.
      destruct Hin as (p & <- & Hp). exists m, pos, problems, p.
      repeat split; auto. left. reflexivity.
    + eapply Forall_impl; [| apply IH; reflexivity].
      intros i (m' & pos' & ps & p & Hin & HL & Hp & ->).
      exists m', pos', ps, p. repeat split; auto. right. assumption.
Qed.

Lemma lintIssues_perm (ms ms' : list (dto.MetricFamily * token.Position)) :
  Permutation ms ms' ->
  match lintIssues Lint ms, lintIssues Lint ms' with
  | Some l, Some l' => Permutation l l'
  | None, None => True
  | _, _ => False
  end.
Proof.
  induction 1 as [| [m pos] ms ms' HP IH | [m1 p1] [m2 p2] ms | ms1 ms2 ms3 H12 IH12 H23 IH23];
    simpl.
  - constructor.
  - destruct (Lint m); [| exact I].
    destruct (lintIssues Lint ms), (lintIssues Lint ms'); try exact IH; try exact I.
    apply Permutation_app_head. exact IH.
  - destruct (Lint m1), (Lint m2), (lintIssues Lint ms); try exact I.
    rewrite !app_assoc. apply Permutation_app_tail, Permutation_app_comm.
  - destruct (lintIssues Lint ms1), (lintIssues Lint ms2), (lintIssues Lint ms3);
      try exact I; try contradiction.
    eapply perm_trans; eassumption.
Qed.

Section MapOrder.
Variable rangeOrder :
  list (dto.MetricFamily * token.Position) -> list (dto.MetricFamily * token.Position).

(** [Run], with its two loops told apart. *)
Lemma Run_eq (fuel : nat) (fs : token.Pos -> token.Position) (files : list ast.Node)
    (strict : bool) :
  Run Unquote Lint rangeOrder Decl fuel fs files strict =
  match walkFiles Unquote Decl fuel files (mkVisitor fs [] [] strict) with
  | Ok (_, v) =>
    match lintIssues Lint (rangeOrder (metrics v)) with
    | Some semantic => Ok (sort.Slice issueLess (issues v ++ semantic))
    | None => Panic LintError
    end
  | Panic p => Panic p
  | OutOfFuel => OutOfFuel
  end.
Proof.
  unfold Run, bind, gets.
  destruct (walkFiles Unquote Decl fuel files (mkVisitor fs [] [] strict))
    as [[[] v] | p |]; try reflexivity.
  rewrite lintMetrics_lintIssues.
  destruct (lintIssues Lint (rangeOrder (metrics v))); reflexivity.
Qed.

(** X2: in lenient mode the traversal reports nothing, so every issue of
    the run is a problem of the validator, wrapped with the position of its
    descriptor. *)
Theorem lenient_run_reports_only_validator_problems (fuel : nat)
    (fs : token.Pos -> token.Position) (files : list ast.Node) (out : list Issue) :
  Run Unquote Lint rangeOrder Decl fuel fs files false = Ok out ->
  exists v,
    walkFiles Unquote Decl fuel files (mkVisitor fs [] [] false) = Ok (tt, v) /\
    issues v = [] /\
    Forall (fun i => exists m pos problems p,
                In (m, pos) (rangeOrder (metrics v)) /\ Lint m = Some problems /\
                In p problems /\
                i = mkIssue pos (promlint.Metric p) (promlint.Text p)) out.
Proof.
  rewrite Run_eq. intros H.
  destruct (walkFiles Unquote Decl fuel files (mkVisitor fs [] [] false))
    as [[[] v] | p |] eqn:EW; try discriminate.
  destruct (lintIssues Lint (rangeOrder (metrics v))) as [semantic|] eqn:EL;
    [| discriminate].
  inversion H; subst. clear H.
  assert (Hquiet : issues v = []).
  { pose proof (walkFiles_keeps_all Unquote Decl lenientSame lenientSame_refl
                  lenientSame_trans (Visit_lenientSame Unquote Decl) fuel files
                  _ _ _ EW eq_refl) as [Hi _].
    exact Hi. }
  exists v. repeat split; [exact Hquiet |].
  rewrite Hquiet. simpl.
  eapply Permutation_Forall; [apply Permutation_sym, Slice_perm |].
  apply lintIssues_wraps in EL. exact EL.
Qed.

(** X4: when the traversal has gone through, the run ends in a panic
    exactly when the validator rejects one of the recorded descriptors;
    otherwise it returns the issues of the traversal and those of the
    validator, sorted. *)
Theorem validator_rejection_is_fatal (fuel : nat) (fs : token.Pos -> token.Position)
    (files : list ast.Node) (strict : bool) (v : visitor) :
  walkFiles Unquote Decl fuel files (mkVisitor fs [] [] strict) = Ok (tt, v) ->
  (Exists (fun e => Lint (fst e) = None) (rangeOrder (metrics v)) ->
   Run Unquote Lint rangeOrder Decl fuel fs files strict = Panic LintError) /\
  (Forall (fun e => Lint (fst e) <> None) (rangeOrder (metrics v)) ->
   exists semantic,
     lintIssues Lint (rangeOrder (metrics v)) = Some semantic /\
     Run Unquote Lint rangeOrder Decl fuel fs files strict
     = Ok (sort.Slice issueLess (issues v ++ semantic))).
Proof.
  intros HW. rewrite Run_eq, HW. split.
  - intros HE. apply lintIssues_None in HE. rewrite HE. reflexivity.
  - intros HF.
    destruct (lintIssues Lint (rangeOrder (metrics v))) as [semantic|] eqn:EL.
    + exists semantic. auto.
    + apply lintIssues_None in EL. apply Exists_exists in EL.
      destruct EL as (e & Hin & He). rewrite Forall_forall in HF.
      exfalso. exact (HF e Hin He).
Qed.

End MapOrder.

(** X5: the order in which the map of descriptors is walked does not show
    in the positions reported: two runs that differ only in that order
    succeed together, return the same issues up to their order, and the
    same sequence of formatted positions. *)
Theorem reported_positions_do_not_depend_on_map_order
    (rangeOrder1 rangeOrder2 :
       list (dto.MetricFamily * token.Position) -> list (dto.MetricFamily * token.Position))
    (fuel : nat) (fs : token.Pos -> token.Position) (files : list ast.Node)
    (strict : bool) (out1 : list Issue) :
  (forall ms, Permutation (rangeOrder1 ms) ms) ->
  (forall ms, Permutation (rangeOrder2 ms) ms) ->
  Run Unquote Lint rangeOrder1 Decl fuel fs files strict = Ok out1 ->
  exists out2,
    Run Unquote Lint rangeOrder2 Decl fuel fs files strict = Ok out2 /\
    Permutation out1 out2 /\
    map positionKey out1 = map positionKey out2.
Proof.
  intros HP1 HP2. rewrite !Run_eq.
  destruct (walkFiles Unquote Decl fuel files (mkVisitor fs [] [] strict))
    as [[[] v] | p |]; try discriminate.
  pose proof (lintIssues_perm (rangeOrder1 (metrics v)) (rangeOrder2 (metrics v))) as HL.
  destruct (lintIssues Lint (rangeOrder1 (metrics v))) as [sem1|]; [| discriminate].
  intros H. inversion H; subst. clear H.
  destruct (lintIssues Lint (rangeOrder2 (metrics v))) as [sem2|].
  - assert (Hsem : Permutation sem1 sem2).
    { apply HL. eapply perm_trans; [apply HP1 | apply Permutation_sym, HP2]. }
    assert (Hout : Permutation (sort.Slice issueLess (issues v ++ sem1))
                               (sort.Slice issueLess (issues v ++ sem2))).
    { eapply perm_trans; [apply Slice_perm |].
      eapply perm_trans; [| apply Permutation_sym, Slice_perm].
      apply Permutation_app_head. exact Hsem. }
    exists (sort.Slice issueLess (issues v ++ sem2)). repeat split; [exact Hout |].
    assert (Hsorted : forall l,
               StronglySorted (fun a b => (a <=? b) = true)
                 (map positionKey (sort.Slice issueLess l))).
    { intros l. apply StronglySorted_map.
      eapply StronglySorted_weaken;
        [| apply (Slice_sorted issueLess issueLess_asym issueLess_not_trans)].
      intros a b Hab. apply string_ltb_leb. exact Hab. }
    apply sorted_strings_unique; [apply Hsorted | apply Hsorted |].
    apply Permutation_map. exact Hout.
  - exfalso. apply HL. eapply perm_trans; [apply HP1 | apply Permutation_sym, HP2].
Qed.

(** X3: the traversal only adds to what the visitor holds: the descriptors
    and issues it had stay in place, the file set and the mode are kept, and
    every descriptor it records has a name. *)
Theorem traversal_only_appends (fuel : nat) (files : list ast.Node) (v v' : visitor) :
  walkFiles Unquote Decl fuel files v = Ok (tt, v') ->
  (exists added,
      metrics v' = (metrics v ++ added)%list /\
      Forall (fun e => dto.Name (fst e) <> None) added) /\
  (exists added, issues v' = (issues v ++ added)%list) /\
  fs v' = fs v /\ strict v' = strict v.
Proof.
  intros HW. split; [| split].
  - exact (walkFiles_keeps_all Unquote Decl recordsNamed recordsNamed_refl
             recordsNamed_trans (Visit_recordsNamed Unquote Decl) fuel files _ _ _ HW).
  - pose proof (walkFiles_keeps_all Unquote Decl structural structural_refl
                  structural_trans (Visit_structural Unquote Decl) fuel files _ _ _ HW)
      as (_ & _ & added & Hi & _).
    exists added. exact Hi.
  - pose proof (walkFiles_keeps_all Unquote Decl structural structural_refl
                  structural_trans (Visit_structural Unquote Decl) fuel files _ _ _ HW)
      as (Hfs & Hs & _).
    auto.
Qed.

End RunAsAWhole.

(** ** Resolution of values *)

Section ResolutionFacts.
Variable Unquote : string -> option string.
Variable Decl : ast.Decls.

(** X6: what [parseValue] answers for an expression, the string and the
    flag, depends on the expression and the declarations alone: the field
    it is asked for, the mode and whatever the visitor holds change only the
    issue that may be recorded; and when the answer is a string, the visitor
    is left as it was. *)
Theorem resolution_depends_only_on_expression (fuel : nat) (object : string)
    (n : ast.Node) (v : visitor) (s : string) (ok : bool) (v' : visitor) :
  parseValue Unquote Decl fuel object n v = Ok ((s, ok), v') ->
  forall object' w,
    exists w',
      parseValue Unquote Decl fuel object' n w = Ok ((s, ok), w') /\
      (ok = true -> v' = v /\ w' = w).
Proof.
  revert n v s ok v'. induction fuel as [|fuel IH]; intros n v s ok v' H object' w;
    [discriminate |].
  destruct (unsupportedKind n) eqn:EK.
  - rewrite parseValue_unsupported in H |- * by exact EK.
    inversion H; subst. eexists. split; [reflexivity | discriminate].
  - destruct n; try discriminate EK; simpl in H |- *.
    + destruct (token.Token_eqb Kind token.STRING).
      * unfold bind, mustUnquote in H |- *.
        destruct (Unquote Value); inversion H; subst. eexists. split; [reflexivity | auto].
      * inversion H; subst. eexists. split; [reflexivity | discriminate].
    + destruct (ast.Obj id) as [obj|];
        [| inversion H; subst; eexists; split; [reflexivity | discriminate]].
      destruct (Decl obj) as [d|];
        [| inversion H; subst; eexists; split; [reflexivity | discriminate]].
      destruct d;
        try (inversion H; subst; eexists; split; [reflexivity | discriminate]).
      eapply IH. exact H.
    + destruct (token.Token_eqb Op token.ADD);
        [| inversion H; subst; eexists; split; [reflexivity | discriminate]].
      unfold bind in H |- *.
      destruct (parseValue Unquote Decl fuel object n1 v) as [[[x okx] v1] | p |] eqn:EX;
        try discriminate.
      destruct (IH _ _ _ _ _ EX object' w) as (w1 & EW1 & HX). rewrite EW1.
      destruct okx; simpl in H |- *.
      * destruct (HX eq_refl) as [-> ->].
        destruct (parseValue Unquote Decl fuel object n2 v) as [[[y oky] v2] | p |] eqn:EY;
          try discriminate.
        destruct (IH _ _ _ _ _ EY object' w) as (w2 & EW2 & HY). rewrite EW2.
        destruct oky; simpl in H |- *; inversion H; subst.
        -- destruct (HY eq_refl) as [-> ->]. eexists. split; [reflexivity | auto].
        -- eexists. split; [reflexivity | discriminate].
      * inversion H; subst. eexists. split; [reflexivity | discriminate].
    + destruct Values as [|init rest];
        [inversion H; subst; eexists; split; [reflexivity | discriminate] |].
      eapply IH. exact H.
Qed.

(** X7: an addition resolves to the concatenation of what its two operands
    resolve to, and to nothing when one of them does not resolve; no other
    operator resolves. *)
Theorem addition_resolves_to_concatenation (fuel : nat) (X : ast.Node) (Op : token.Token)
    (Y : ast.Node) :
  resolvesTo Unquote Decl (S fuel) (ast.BinaryExpr X Op Y) =
  if token.Token_eqb Op token.ADD then
    match resolvesTo Unquote Decl fuel X, resolvesTo Unquote Decl fuel Y with
    | Some x, Some y => Some (x ++ y)
    | _, _ => None
    end
  else None.
Proof.
  unfold resolvesTo. cbn [parseValue].
  destruct (token.Token_eqb Op token.ADD); [| reflexivity].
  unfold bind.
  destruct (parseValue Unquote Decl fuel "" X blankVisitor) as [[[x okx] v1] | p |] eqn:EX;
    try reflexivity.
  destruct okx; [| reflexivity].
  destruct (parseValue_outcome Unquote Decl _ _ _ _ _ _ _ EX) as [[_ ->] | [E _]];
    [| discriminate].
  cbn [negb].
  destruct (parseValue Unquote Decl fuel "" Y blankVisitor) as [[[y oky] v2] | p |];
    try reflexivity.
  destruct oky; reflexivity.
Qed.

(** X8: the elements of the struct literal that are not allow-listed fields
    (ConstLabels, Buckets, positional values, ...) are skipped: the options
    read, and the issues added on the way, are those of the literal with
    these elements taken out. *)
Theorem other_fields_are_skipped (fuel : nat) (Elts : list ast.Node)
    (metricOption : opt) (help : option string) (v : visitor) :
  parseCompositeOptsElts Unquote Decl fuel Elts metricOption help v =
  parseCompositeOptsElts Unquote Decl fuel (filter isOptsField Elts) metricOption help v.
Proof.
  revert metricOption help v.
  induction Elts as [|elt Elts IH]; intros metricOption help v; [reflexivity |].
  cbn [filter]. unfold isOptsField at 1.
  destruct (optsField elt) as [[key Value]|] eqn:EF.
  - apply optsField_Some in EF. destruct EF as (object & b & -> & HK & HM).
    cbn [parseCompositeOptsElts]. rewrite HK, HM. unfold bind.
    destruct (parseValue Unquote Decl fuel key Value v) as [[[lit ok] v1] | p |];
      try reflexivity.
    destruct ok; cbn [negb]; cbv iota; [| reflexivity].
    repeat match goal with
           | |- context [if ?b then _ else _] => destruct b
           end; apply IH.
  - rewrite (optsField_None Unquote Decl) by exact EF. apply IH.
Qed.

(** X9: a call is looked at only under one of the eight constructor names:
    any other call, with whatever arguments, leaves the visitor as it was.
    The const-metric functions are among the others, so the call inside a
    const-metric send, which the walk visits as a call too, records
    nothing. *)
Theorem other_calls_are_ignored (fuel : nat) (Fun : ast.Node) (Args : list ast.Node)
    (v : visitor) :
  ((forall methodName, callee Fun = Some methodName -> mapGet metricsType methodName = None) ->
   parseCallerExpr Unquote Decl fuel Fun Args v = Ok (tt, v)) /\
  (forall methodName requiredArgNum,
      mapGet constMetricArgs methodName = Some requiredArgNum ->
      mapGet metricsType methodName = None).
Proof.
  split.
  - intros H. unfold parseCallerExpr.
    destruct Fun; try reflexivity; rewrite (H _ eq_refl); reflexivity.
  - intros methodName requiredArgNum. unfold constMetricArgs. cbn [mapGet].
    destruct (String.eqb_spec "MustNewConstMetric" methodName); [subst; reflexivity |].
    destruct (String.eqb_spec "MustNewHistogram" methodName); [subst; reflexivity |].
    destruct (String.eqb_spec "MustNewSummary" methodName); [subst; reflexivity |].
    discriminate.
Qed.

(** X10: a constructor whose first argument is neither a struct literal nor
    an identifier assigned one (options declared with [var], returned by a
    function, ...) is passed over in both modes: no descriptor, no issue. *)
Theorem other_options_are_passed_over (fuel : nat) (Fun : ast.Node) (methodName : string)
    (metricType : dto.MetricType) (arg0 : ast.Node) (rest : list ast.Node) (v : visitor) :
  callee Fun = Some methodName ->
  mapGet metricsType methodName = Some metricType ->
  optionsLiteral Decl arg0 = None ->
  parseCallerExpr Unquote Decl fuel Fun (arg0 :: rest) v = Ok (tt, v).
Proof.
  intros HC HM HO.
  rewrite (parseCallerExpr_recognised Unquote Decl _ _ _ _ _ _ _ HC HM).
  assert (HP : parseOpts Unquote Decl fuel arg0 v = Ok ((None, None), v)).
  { unfold optionsLiteral in HO. unfold parseOpts.
    destruct arg0 as [ | stmt | | | | | | | | | ]; try reflexivity; try discriminate.
    destruct (ast.Obj stmt) as [obj|]; [| reflexivity].
    destruct (Decl obj) as [d|]; [| reflexivity].
    destruct d as [ | | | | | | | | Lhs [|r Rhs] | | ]; try reflexivity.
    destruct r; try reflexivity. discriminate. }
  rewrite HP. reflexivity.
Qed.

End ResolutionFacts.

(** ** Const-metric sends *)

Section ConstMetricSends.
Variable Unquote : string -> option string.
Variable Decl : ast.Decls.

Lemma parseValue_panic (fuel : nat) (object : string) (n : ast.Node) (v : visitor)
    (p : panic) :
  parseValue Unquote Decl fuel object n v = Panic p -> p = UnquoteError.
Proof.
  revert n v. induction fuel as [|fuel IH]; intros n v H; [discriminate |].
  destruct (unsupportedKind n) eqn:EK.
  - rewrite parseValue_unsupported in H by exact EK. discriminate.
  - destruct n; try discriminate EK; simpl in H.
    + destruct (token.Token_eqb Kind token.STRING); [| discriminate].
      unfold bind, mustUnquote in H. destruct (Unquote Value); [discriminate |].
      inversion H. reflexivity.
    + destruct (ast.Obj id) as [obj|]; [| discriminate].
      destruct (Decl obj) as [d|]; [| discriminate].
      destruct d; try discriminate. eapply IH. exact H.
    + destruct (token.Token_eqb Op token.ADD); [| discriminate].
      unfold bind in H.
      destruct (parseValue Unquote Decl fuel object n1 v) as [[[x okx] v1] | p1 |] eqn:EX;
        [| inversion H; subst; eapply IH; exact EX | discriminate].
      destruct okx; simpl in H; [| discriminate].
      destruct (parseValue Unquote Decl fuel object n2 v1) as [[[y oky] v2] | p2 |] eqn:EY;
        [| inversion H; subst; eapply IH; exact EY | discriminate].
      destruct oky; discriminate.
    + destruct Values as [|init rest]; [discriminate |]. eapply IH. exact H.
Qed.

(** [NewDesc] called with four arguments whose first two resolve. *)
Lemma parseNewDescCallExpr_resolved (fuel : nat) (Fun fqName help labels constLabels : ast.Node)
    (name helpText : string) (v : visitor) :
  resolvesTo Unquote Decl fuel fqName = Some name ->
  resolvesTo Unquote Decl fuel help = Some helpText ->
  parseNewDescCallExpr Unquote Decl fuel Fun [fqName; help; labels; constLabels] v
  = Ok ((Some name, Some helpText), v).
Proof.
  intros Hn Hh. unfold parseNewDescCallExpr, bind, gets, index, ret.
  cbn [length Nat.eqb negb andb nth_error].
  rewrite (resolvesTo_parseValue Unquote Decl _ _ _ Hn "fqName" v). cbn [negb].
  rewrite (resolvesTo_parseValue Unquote Decl _ _ _ Hh "help" v). reflexivity.
Qed.

Lemma parseConstMetricOpts_descCall (fuel : nat) (arg0 Fun : ast.Node) (Args : list ast.Node) :
  descCall Decl arg0 = Some (Fun, Args) ->
  parseConstMetricOpts Unquote Decl fuel arg0 = parseNewDescCallExpr Unquote Decl fuel Fun Args.
Proof.
  unfold descCall, parseConstMetricOpts. intros H.
  destruct arg0 as [ | stmt | | | | | | | | | ]; try discriminate.
  - destruct (ast.Obj stmt) as [obj|]; [| discriminate].
    destruct (Decl obj) as [d|]; [| discriminate].
    destruct d as [ | | | | | | | | Lhs [|r Rhs] | Names Type_ [|r Values] | ];
      try discriminate; destruct r; try discriminate; inversion H; subst; reflexivity.
  - inversion H; subst. reflexivity.
Qed.

(** What the first switch of [parseSendMetricChanExpr] finds for a callee
    with a name. *)
Lemma const_metric_found (Fun : ast.Node) (methodName : string) :
  callee Fun = Some methodName ->
  match Fun with
  | ast.Ident stmt =>
    match mapGet constMetricArgs (ast.Name stmt) with
    | Some requiredArgNum => Some (requiredArgNum, ast.Name stmt)
    | None => None
    end
  | ast.SelectorExpr _ Sel =>
    match mapGet constMetricArgs (ast.Name Sel) with
    | Some requiredArgNum => Some (requiredArgNum, ast.Name Sel)
    | None => None
    end
  | _ => Some (0%Z, "")
  end =
  match mapGet constMetricArgs methodName with
  | Some requiredArgNum => Some (requiredArgNum, methodName)
  | None => None
  end.
Proof.
  intros HC. destruct Fun; try discriminate HC; simpl in HC; inversion HC; subst; reflexivity.
Qed.

(** X11: a send of a const-metric function given enough arguments, whose
    descriptor is built, in place or behind one identifier, by a call with
    four arguments of which the first two resolve, records one descriptor
    in both modes: the resolved name and help, the kind that goes with the
    function and its second argument, at the position of the call; no issue
    is added. *)
Theorem const_metric_send_records_descriptor (fuel : nat) (Chan Fun : ast.Node)
    (methodName : string) (requiredArgNum : Z) (arg0 arg1 : ast.Node) (rest : list ast.Node)
    (descFun fqName help labels constLabels : ast.Node) (name helpText : string)
    (v : visitor) :
  callee Fun = Some methodName ->
  mapGet constMetricArgs methodName = Some requiredArgNum ->
  (Z.of_nat (length (arg0 :: arg1 :: rest)) <? requiredArgNum)%Z = false ->
  descCall Decl arg0 = Some (descFun, [fqName; help; labels; constLabels]) ->
  resolvesTo Unquote Decl fuel fqName = Some name ->
  resolvesTo Unquote Decl fuel help = Some helpText ->
  parseSendMetricChanExpr Unquote Decl fuel Chan (ast.CallExpr Fun (arg0 :: arg1 :: rest)) v =
  Ok (tt, mkVisitor (fs v)
            (metrics v ++
             [(dto.mkMetricFamily (Some name) (Some helpText) (constKind methodName arg1),
               fs v (ast.Pos Fun))])
            (issues v) (strict v)).
Proof.
  intros HC HM HL HD Hn Hh. unfold parseSendMetricChanExpr.
  rewrite (const_metric_found _ _ HC), HM.
  unfold bind at 1. unfold gets at 1. rewrite HL. cbn [andb].
  unfold bind at 1. unfold index at 1. cbn [nth_error]. unfold ret at 1.
  unfold bind at 1.
  rewrite (parseConstMetricOpts_descCall _ _ _ _ HD).
  rewrite (parseNewDescCallExpr_resolved _ _ _ _ _ _ _ _ _ Hn Hh).
  unfold constKind, bind, index, Position, gets, addMetric, ret. cbn [nth_error ast.Pos].
  destruct (methodName =? "MustNewConstMetric").
  - destruct arg1; reflexivity.
  - destruct (methodName =? "MustNewHistogram"); [reflexivity |].
    destruct (methodName =? "MustNewSummary"); reflexivity.
Qed.

(** In lenient mode the call that builds the descriptor is read through its
    first two arguments. *)
Lemma parseNewDescCallExpr_lenient (fuel : nat) (Fun fqName help : ast.Node)
    (rest : list ast.Node) (v : visitor) :
  strict v = false ->
  parseNewDescCallExpr Unquote Decl fuel Fun (fqName :: help :: rest) v =
  match parseValue Unquote Decl fuel "fqName" fqName v with
  | Ok ((name, true), v1) =>
    match parseValue Unquote Decl fuel "help" help v1 with
    | Ok ((helpText, true), v2) => Ok ((Some name, Some helpText), v2)
    | Ok ((_, false), v2) => Ok ((None, None), v2)
    | Panic p => Panic p
    | OutOfFuel => OutOfFuel
    end
  | Ok ((_, false), v1) => Ok ((None, None), v1)
  | Panic p => Panic p
  | OutOfFuel => OutOfFuel
  end.
Proof.
  intros HS. unfold parseNewDescCallExpr.
  unfold bind at 1. unfold gets at 1. rewrite HS, Bool.andb_false_r.
  unfold bind, index, ret. cbn [nth_error].
  destruct (parseValue Unquote Decl fuel "fqName" fqName v) as [[[name ok] v1] | p |];
    try reflexivity.
  destruct ok; cbn [negb]; [| reflexivity].
  destruct (parseValue Unquote Decl fuel "help" help v1) as [[[helpText ok] v2] | p |];
    try reflexivity.
  destruct ok; reflexivity.
Qed.

(** X12: the number of arguments of the call that builds the descriptor is
    checked in strict mode only.  There, a call with other than four
    arguments gets the issue "NewDesc should have 4 args" and gives no
    descriptor; in lenient mode only the first two arguments are looked at,
    whatever follows them. *)
Theorem NewDesc_arity_is_checked_in_strict_mode_only (fuel : nat) (Fun : ast.Node)
    (Args : list ast.Node) (v : visitor) :
  (strict v = true -> length Args <> 4 ->
   parseNewDescCallExpr Unquote Decl fuel Fun Args v =
   Ok ((None, None),
       mkVisitor (fs v) (metrics v)
         (issues v ++ [mkIssue (fs v (ast.Pos Fun)) "" "NewDesc should have 4 args"])
         (strict v))) /\
  (strict v = false ->
   forall fqName help rest rest' Fun',
     Args = fqName :: help :: rest ->
     parseNewDescCallExpr Unquote Decl fuel Fun Args v =
     parseNewDescCallExpr Unquote Decl fuel Fun' (fqName :: help :: rest') v).
Proof.
  split.
  - intros HS HL. unfold parseNewDescCallExpr.
    unfold bind at 1. unfold gets at 1. rewrite HS.
    destruct (Nat.eqb_spec (length Args) 4) as [E | _]; [contradiction |].
    cbn [negb andb]. unfold bind, Position, gets, appendIssue, ret. cbn [ast.Pos].
    rewrite HS. reflexivity.
  - intros HS fqName help rest rest' Fun' ->.
    rewrite !parseNewDescCallExpr_lenient by exact HS. reflexivity.
Qed.

Lemma parseNewDescCallExpr_panic_strict (fuel : nat) (Fun : ast.Node) (Args : list ast.Node)
    (v : visitor) (p : panic) :
  strict v = true ->
  parseNewDescCallExpr Unquote Decl fuel Fun Args v = Panic p -> p = UnquoteError.
Proof.
  intros HS H. unfold parseNewDescCallExpr in H.
  unfold bind at 1 in H. unfold gets at 1 in H. rewrite HS in H.
  destruct (Nat.eqb_spec (length Args) 4) as [E | _]; cbn [negb andb] in H.
  - destruct Args as [|a0 [|a1 [|a2 [|a3 [|a4 rest]]]]]; try discriminate E.
    unfold bind, index, ret in H. cbn [nth_error] in H.
    destruct (parseValue Unquote Decl fuel "fqName" a0 v) as [[[name ok] v1] | p1 |] eqn:E0;
      [| inversion H; subst; eapply parseValue_panic; exact E0 | discriminate].
    destruct ok; cbn [negb] in H; [| discriminate].
    destruct (parseValue Unquote Decl fuel "help" a1 v1) as [[[help ok] v2] | p2 |] eqn:E1;
      [| inversion H; subst; eapply parseValue_panic; exact E1 | discriminate].
    destruct ok; discriminate.
  - unfold bind, Position, gets, appendIssue, ret in H. discriminate.
Qed.

Lemma parseConstMetricOpts_panic_strict (fuel : nat) (n : ast.Node) (v : visitor) (p : panic) :
  strict v = true ->
  parseConstMetricOpts Unquote Decl fuel n v = Panic p -> p = UnquoteError.
Proof.
  intros HS H.
  destruct (descCall Decl n) as [[Fun Args]|] eqn:ED.
  - rewrite (parseConstMetricOpts_descCall _ _ _ _ ED) in H.
    eapply parseNewDescCallExpr_panic_strict; eassumption.
  - exfalso. unfold descCall in ED. unfold parseConstMetricOpts in H.
    destruct n as [ | stmt | | | | | | | | | ]; try discriminate.
    destruct (ast.Obj stmt) as [obj|]; [| discriminate].
    destruct (Decl obj) as [d|];
      [| unfold bind, gets, Position, appendIssue, ret in H;
         destruct (strict v); discriminate].
    destruct d as [ | | | | | | | | Lhs [|r Rhs] | Names Type_ [|r Values] | ];
      try destruct r; try discriminate ED;
      unfold bind, gets, Position, appendIssue, ret in H;
      destruct (strict v); discriminate.
Qed.

Lemma constMetricArgs_values (methodName : string) (requiredArgNum : Z) :
  mapGet constMetricArgs methodName = Some requiredArgNum ->
  requiredArgNum = 3%Z \/ requiredArgNum = 4%Z.
Proof.
  unfold constMetricArgs. cbn [mapGet]. intros H.
  destruct ("MustNewConstMetric" =? methodName); [inversion H; auto |].
  destruct ("MustNewHistogram" =? methodName); [inversion H; auto |].
  destruct ("MustNewSummary" =? methodName); [inversion H; auto | discriminate].
Qed.

End ConstMetricSends.

(** ** Panics of a visit *)

Section Panics.
Variable Unquote : string -> option string.
Variable Decl : ast.Decls.

Lemma parseCompositeOptsElts_panic (fuel : nat) (Elts : list ast.Node) (metricOption : opt)
    (help : option string) (v : visitor) (p : panic) :
  parseCompositeOptsElts Unquote Decl fuel Elts metricOption help v = Panic p ->
  p = UnquoteError.
Proof.
  revert metricOption help v.
  induction Elts as [|elt Elts IH]; intros metricOption help v H; [discriminate |].
  destruct (optsField elt) as [[key Value]|] eqn:EF.
  - apply optsField_Some in EF. destruct EF as (object & b & -> & HK & HM).
    cbn [parseCompositeOptsElts] in H. rewrite HK, HM in H. unfold bind in H.
    destruct (parseValue Unquote Decl fuel key Value v) as [[[lit ok] v1] | p1 |] eqn:EV;
      [| inversion H; subst; eapply (parseValue_panic Unquote Decl); exact EV | discriminate].
    destruct ok; cbn [negb] in H; cbv iota in H; [| discriminate].
    revert H.
    repeat match goal with
           | |- context [if ?b then _ else _] => destruct b
           end; apply IH.
  - rewrite (optsField_None Unquote Decl) in H by exact EF. eapply IH. exact H.
Qed.

Lemma parseOpts_panic (fuel : nat) (n : ast.Node) (v : visitor) (p : panic) :
  parseOpts Unquote Decl fuel n v = Panic p -> p = UnquoteError.
Proof.
  intros H. destruct (optionsLiteral Decl n) as [Elts|] eqn:EO.
  - rewrite (parseOpts_optionsLiteral Unquote Decl _ _ _ EO) in H.
    eapply parseCompositeOptsElts_panic. exact H.
  - exfalso. unfold optionsLiteral in EO. unfold parseOpts in H.
    destruct n as [ | stmt | | | | | | | | | ]; try discriminate.
    destruct (ast.Obj stmt) as [obj|]; [| discriminate].
    destruct (Decl obj) as [d|]; [| discriminate].
    destruct d as [ | | | | | | | | Lhs [|r Rhs] | | ]; try discriminate.
    destruct r; discriminate.
Qed.

Lemma parseCallerExpr_unrecognised (fuel : nat) (Fun : ast.Node) (Args : list ast.Node)
    (v : visitor) :
  (forall methodName, callee Fun = Some methodName -> mapGet metricsType methodName = None) ->
  parseCallerExpr Unquote Decl fuel Fun Args v = Ok (tt, v).
Proof.
  intros H. unfold parseCallerExpr.
  destruct Fun; try reflexivity; rewrite (H _ eq_refl); reflexivity.
Qed.

Lemma parseCallerExpr_panic_strict (fuel : nat) (Fun : ast.Node) (Args : list ast.Node)
    (v : visitor) (p : panic) :
  strict v = true ->
  parseCallerExpr Unquote Decl fuel Fun Args v = Panic p -> p = UnquoteError.
Proof.
  intros HS H.
  destruct (callee Fun) as [methodName|] eqn:EC.
  - destruct (mapGet metricsType methodName) as [metricType|] eqn:EM.
    + destruct Args as [|arg0 rest].
      * rewrite (parseCallerExpr_no_arguments Unquote Decl _ _ _ _ _ EC EM), HS in H.
        discriminate.
      * rewrite (parseCallerExpr_recognised Unquote Decl _ _ _ _ _ _ _ EC EM) in H.
        destruct (parseOpts Unquote Decl fuel arg0 v) as [[[[opts|] help] v1] | p1 |] eqn:EP;
          try discriminate.
        inversion H; subst. eapply parseOpts_panic. exact EP.
    + rewrite parseCallerExpr_unrecognised in H; [discriminate |].
      intros m Hm. congruence.
  - rewrite parseCallerExpr_unrecognised in H; [discriminate |].
    intros m Hm. congruence.
Qed.

(** The send of a call whose callee has no name: the two locals of the first
    switch keep their zero values. *)
Lemma anonymous_send (fuel : nat) (Chan Fun : ast.Node) (Args : list ast.Node) (v : visitor) :
  callee Fun = None ->
  parseSendMetricChanExpr Unquote Decl fuel Chan (ast.CallExpr Fun Args) v =
  match Args with
  | [] => Panic IndexOutOfRange
  | arg0 :: _ =>
    match parseConstMetricOpts Unquote Decl fuel arg0 v with
    | Ok ((Some name, help), v1) =>
      addMetric (dto.mkMetricFamily (Some name) help None) (fs v1 (ast.Pos Fun)) v1
    | Ok ((None, _), v1) => Ok (tt, v1)
    | Panic p => Panic p
    | OutOfFuel => OutOfFuel
    end
  end.
Proof.
  intros HC. unfold parseSendMetricChanExpr.
  assert (HL : (Z.of_nat (length Args) <? 0)%Z = false) by (destruct Args; reflexivity).
  destruct Fun; try discriminate HC.
  all: unfold bind at 1; unfold gets at 1; rewrite HL; cbn [andb].
  all: destruct Args as [|arg0 rest]; [reflexivity |].
  all: unfold bind, index, ret, Position, gets; cbn [nth_error ast.Pos String.eqb].
  all: destruct (parseConstMetricOpts Unquote Decl fuel arg0 v)
         as [[[[name|] help] v1] | p |]; reflexivity.
Qed.

(** The send of a const-metric function in strict mode. *)
Lemma named_send_panic_strict (fuel : nat) (Chan Fun : ast.Node) (Args : list ast.Node)
    (methodName : string) (v : visitor) (p : panic) :
  callee Fun = Some methodName ->
  strict v = true ->
  parseSendMetricChanExpr Unquote Decl fuel Chan (ast.CallExpr Fun Args) v = Panic p ->
  p = UnquoteError.
Proof.
  intros HC HS H. unfold parseSendMetricChanExpr in H.
  rewrite (const_metric_found _ _ HC) in H.
  destruct (mapGet constMetricArgs methodName) as [requiredArgNum|] eqn:EM; [| discriminate].
  unfold bind at 1 in H. unfold gets at 1 in H. rewrite HS in H.
  destruct (Z.of_nat (length Args) <? requiredArgNum)%Z eqn:EL; cbn [andb] in H.
  - unfold bind, Position, gets, appendIssue in H. discriminate.
  - assert (Hlen : exists arg0 arg1 rest, Args = arg0 :: arg1 :: rest).
    { apply Z.ltb_ge in EL.
      destruct (constMetricArgs_values _ _ EM) as [-> | ->];
        destruct Args as [|arg0 [|arg1 rest]]; simpl length in EL; try lia; eauto. }
    destruct Hlen as (arg0 & arg1 & rest & ->).
    unfold bind at 1 in H. unfold index at 1 in H. cbn [nth_error] in H.
    unfold ret at 1 in H. unfold bind at 1 in H.
    destruct (parseConstMetricOpts Unquote Decl fuel arg0 v)
      as [[[[name|] help] v1] | p1 |] eqn:EP; try discriminate.
    + exfalso. revert H.
      unfold bind, index, Position, gets, addMetric, ret. cbn [nth_error].
      destruct (methodName =? "MustNewConstMetric"); [destruct arg1; discriminate |].
      destruct (methodName =? "MustNewHistogram"); [discriminate |].
      destruct (methodName =? "MustNewSummary"); discriminate.
    + inversion H; subst. eapply parseConstMetricOpts_panic_strict; eassumption.
Qed.

(** X13: in strict mode a visit can panic in two ways only: on a string
    literal that does not unquote, and, with an index out of range, on the
    send of a call without arguments whose callee is neither an identifier
    nor a selector ([ch <- handlers[i]()]); and such a send does panic, in
    both modes. *)
Theorem strict_visit_panics (fuel : nat) (n : ast.Node) (v : visitor) :
  (forall p,
      strict v = true ->
      Visit Unquote Decl fuel n v = Panic p ->
      p = UnquoteError \/
      (p = IndexOutOfRange /\
       exists Chan Fun, n = ast.SendStmt Chan (ast.CallExpr Fun []) /\ callee Fun = None)) /\
  (forall Chan Fun,
      n = ast.SendStmt Chan (ast.CallExpr Fun []) -> callee Fun = None ->
      Visit Unquote Decl fuel n v = Panic IndexOutOfRange).
Proof.
  split.
  - intros p HS H. destruct n; try discriminate H; cbn [Visit] in H.
    + left. eapply parseCallerExpr_panic_strict; eassumption.
    + destruct n2 as [ | | | Fun Args | | | | | | | ]; try discriminate H.
      destruct (callee Fun) as [methodName|] eqn:EC.
      * left. eapply named_send_panic_strict; eassumption.
      * rewrite (anonymous_send _ _ _ _ _ EC) in H.
        destruct Args as [|arg0 rest].
        -- right. inversion H; subst. split; [reflexivity |]. eauto.
        -- left.
           destruct (parseConstMetricOpts Unquote Decl fuel arg0 v)
             as [[[[name|] help] v1] | p1 |] eqn:EP; try discriminate.
           inversion H; subst. eapply parseConstMetricOpts_panic_strict; eassumption.
  - intros Chan Fun -> HC. cbn [Visit]. rewrite (anonymous_send _ _ _ _ _ HC). reflexivity.
Qed.

End Panics.

(** ** The further properties on the samples *)

(** X2 on a lenient run over [Samples.threeCalls]. *)
Lemma lenient_run_reports_only_validator_problems_witness :
  exists v,
    walkFiles Samples.unquotePlain Samples.noDecl 5 Samples.threeCalls
      (mkVisitor Samples.fset [] [] false) = Ok (tt, v) /\
    issues v = [] /\
    Forall (fun i => exists m pos problems p,
                In (m, pos) (Samples.inOrder (metrics v)) /\
                Samples.lintHelp m = Some problems /\ In p problems /\
                i = mkIssue pos (promlint.Metric p) (promlint.Text p))
      Samples.threeCallsLenientIssues.
Proof.
  apply (lenient_run_reports_only_validator_problems Samples.unquotePlain Samples.lintHelp
           Samples.noDecl Samples.inOrder 5 Samples.fset Samples.threeCalls).
  reflexivity.
Defined.

(** X3 on the traversal of [Samples.threeCalls]. *)
Lemma traversal_only_appends_witness :
  walkFiles Samples.unquotePlain Samples.noDecl 5 Samples.threeCalls
    (mkVisitor Samples.fset [] [] true) = Ok (tt, Samples.threeCallsVisitor) /\
  (exists added,
      metrics Samples.threeCallsVisitor = ([] ++ added)%list /\
      Forall (fun e => dto.Name (fst e) <> None) added) /\
  (exists added, issues Samples.threeCallsVisitor = ([] ++ added)%list) /\
  fs Samples.threeCallsVisitor = Samples.fset /\ strict Samples.threeCallsVisitor = true.
Proof.
  split; [reflexivity |].
  apply (traversal_only_appends Samples.unquotePlain Samples.noDecl 5 Samples.threeCalls
           (mkVisitor Samples.fset [] [] true) Samples.threeCallsVisitor).
  reflexivity.
Defined.

(** X4 on [Samples.threeCalls]: the validator accepts both descriptors. *)
Lemma validator_rejection_is_fatal_witness :
  Forall (fun e => Samples.lintHelp (fst e) <> None)
    (Samples.inOrder (metrics Samples.threeCallsVisitor)) /\
  exists semantic,
    lintIssues Samples.lintHelp (Samples.inOrder (metrics Samples.threeCallsVisitor))
    = Some semantic /\
    Run Samples.unquotePlain Samples.lintHelp Samples.inOrder Samples.noDecl 5 Samples.fset
      Samples.threeCalls true
    = Ok (sort.Slice issueLess (issues Samples.threeCallsVisitor ++ semantic)).
Proof.
  assert (HF : Forall (fun e => Samples.lintHelp (fst e) <> None)
                 (Samples.inOrder (metrics Samples.threeCallsVisitor))).
  { repeat constructor; discriminate. }
  split; [exact HF |].
  exact (proj2 (validator_rejection_is_fatal Samples.unquotePlain Samples.lintHelp
                  Samples.noDecl Samples.inOrder 5 Samples.fset Samples.threeCalls true
                  Samples.threeCallsVisitor eq_refl) HF).
Defined.

(** X5 on [Samples.threeCalls], the map walked in the order of insertion
    and in the opposite order. *)
Lemma reported_positions_do_not_depend_on_map_order_witness :
  Run Samples.unquotePlain Samples.lintHelp Samples.inOrder Samples.noDecl 5 Samples.fset
    Samples.threeCalls true = Ok Samples.threeCallsIssues /\
  exists out2,
    Run Samples.unquotePlain Samples.lintHelp Samples.lastFirst Samples.noDecl 5 Samples.fset
      Samples.threeCalls true = Ok out2 /\
    Permutation Samples.threeCallsIssues out2 /\
    map positionKey Samples.threeCallsIssues = map positionKey out2.
Proof.
  split; [reflexivity |].
  apply (reported_positions_do_not_depend_on_map_order Samples.unquotePlain Samples.lintHelp
           Samples.noDecl Samples.inOrder Samples.lastFirst 5 Samples.fset
           Samples.threeCalls true).
  - intros ms. apply Permutation_refl.
  - intros ms. apply Permutation_sym, Permutation_rev.
  - reflexivity.
Defined.

(** X6 on [x] declared by [var x = "a" + "b"], asked for as Name by a
    strict visitor and as Help by the lenient visitor of [Samples.threeCalls]. *)
Lemma resolution_depends_only_on_expression_witness :
  exists w',
    parseValue Samples.unquotePlain Samples.declVar 4 "Help" (Samples.identOf 1%Z "x" 0)
      (mkVisitor Samples.fset (metrics Samples.threeCallsVisitor) [] false)
    = Ok (("ab", true), w') /\
    (true = true ->
     mkVisitor Samples.fset [] [] true = mkVisitor Samples.fset [] [] true /\
     w' = mkVisitor Samples.fset (metrics Samples.threeCallsVisitor) [] false).
Proof.
  apply (resolution_depends_only_on_expression Samples.unquotePlain Samples.declVar 4 "Name"
           (Samples.identOf 1%Z "x" 0) (mkVisitor Samples.fset [] [] true) "ab" true
           (mkVisitor Samples.fset [] [] true)).
  reflexivity.
Defined.

(** X10 on [prometheus.NewCounter(opts)] with [opts] declared by [var]. *)
Lemma other_options_are_passed_over_witness :
  optionsLiteral Samples.declVarOpts (Samples.identOf 12%Z "opts" 2) = None /\
  parseCallerExpr Samples.unquotePlain Samples.declVarOpts 5
    (Samples.selector 10%Z "prometheus" "NewCounter") Samples.counterVarOpts
    (mkVisitor Samples.fset [] [] true) = Ok (tt, mkVisitor Samples.fset [] [] true).
Proof.
  split; [reflexivity |].
  apply (other_options_are_passed_over Samples.unquotePlain Samples.declVarOpts 5
           (Samples.selector 10%Z "prometheus" "NewCounter") "NewCounter"
           dto.MetricType_COUNTER (Samples.identOf 12%Z "opts" 2) []
           (mkVisitor Samples.fset [] [] true));
    reflexivity.
Defined.

(** X11 on [ch <- prometheus.MustNewConstMetric(desc, prometheus.GaugeValue, 1.0)]. *)
Lemma const_metric_send_records_descriptor_witness :
  parseSendMetricChanExpr Samples.unquotePlain Samples.declDesc 1 (Samples.ident 70%Z "ch")
    (ast.CallExpr (Samples.selector 71%Z "prometheus" "MustNewConstMetric")
       [Samples.identOf 72%Z "desc" 1; Samples.selector 73%Z "prometheus" "GaugeValue";
        ast.BasicLit 74%Z token.FLOAT "1.0"])
    (mkVisitor Samples.fset [] [] true) =
  Ok (tt, mkVisitor Samples.fset
            [(dto.mkMetricFamily (Some "my_metric") (Some "help text")
                (Some dto.MetricType_GAUGE), Samples.fset 71%Z)]
            [] true).
Proof.
  apply (const_metric_send_records_descriptor Samples.unquotePlain Samples.declDesc 1
           (Samples.ident 70%Z "ch") (Samples.selector 71%Z "prometheus" "MustNewConstMetric")
           "MustNewConstMetric" 3%Z (Samples.identOf 72%Z "desc" 1)
           (Samples.selector 73%Z "prometheus" "GaugeValue")
           [ast.BasicLit 74%Z token.FLOAT "1.0"]
           (Samples.selector 60%Z "prometheus" "NewDesc")
           (Samples.str 62%Z "my_metric") (Samples.str 63%Z "help text")
           (Samples.ident 64%Z "nil") (Samples.ident 65%Z "nil")
           "my_metric" "help text" (mkVisitor Samples.fset [] [] true));
    reflexivity.
Defined.

(** X14: in strict mode a send of a const-metric function with fewer
    arguments than its entry in [constMetricArgs] asks for (3 or 4) adds one
    issue, at the position of the call, that names the function and that
    number, and records no descriptor. *)
Theorem const_metric_send_with_too_few_arguments (Unquote : string -> option string)
    (Decl : ast.Decls) (fuel : nat) (Chan Fun : ast.Node) (methodName : string)
    (requiredArgNum : Z) (Args : list ast.Node) (v : visitor) :
  callee Fun = Some methodName ->
  mapGet constMetricArgs methodName = Some requiredArgNum ->
  (Z.of_nat (length Args) < requiredArgNum)%Z ->
  strict v = true ->
  (requiredArgNum = 3%Z \/ requiredArgNum = 4%Z) /\
  parseSendMetricChanExpr Unquote Decl fuel Chan (ast.CallExpr Fun Args) v =
  Ok (tt, mkVisitor (fs v) (metrics v)
            (issues v ++
             [mkIssue (fs v (ast.Pos Fun)) ""
                (methodName ++ " should have at least " ++ Itoa requiredArgNum ++ " arguments")])
            (strict v)).
Proof.
  intros HC HM HL HS. split; [eapply constMetricArgs_values; exact HM |].
  unfold parseSendMetricChanExpr. rewrite (const_metric_found _ _ HC), HM.
  apply Z.ltb_lt in HL.
  unfold bind at 1. unfold gets at 1. rewrite HL, HS. cbn [andb].
  unfold bind, Position, gets, appendIssue. cbn [ast.Pos]. rewrite HS. reflexivity.
Qed.

(** X14 on [ch <- prometheus.MustNewConstMetric()]. *)
Lemma const_metric_send_with_too_few_arguments_witness :
  (3%Z = 3%Z \/ 3%Z = 4%Z) /\
  parseSendMetricChanExpr Samples.unquotePlain Samples.noDecl 5 (Samples.ident 5%Z "ch")
    (ast.CallExpr (Samples.selector 10%Z "prometheus" "MustNewConstMetric") [])
    (mkVisitor Samples.fset [] [] true) =
  Ok (tt, mkVisitor Samples.fset []
            [mkIssue (Samples.fset 10%Z) ""
               "MustNewConstMetric should have at least 3 arguments"] true).
Proof.
  apply (const_metric_send_with_too_few_arguments Samples.unquotePlain Samples.noDecl 5
           (Samples.ident 5%Z "ch") (Samples.selector 10%Z "prometheus" "MustNewConstMetric")
           "MustNewConstMetric" 3%Z [] (mkVisitor Samples.fset [] [] true));
    reflexivity.
Defined.

(** X9 on [prometheus.NewDesc("my_metric", "help text", nil, nil)], visited
    as a call. *)
Lemma other_calls_are_ignored_witness :
  Visit Samples.unquotePlain Samples.noDecl 5 Samples.newDesc
    (mkVisitor Samples.fset [] [] true) = Ok (tt, mkVisitor Samples.fset [] [] true).
Proof.
  apply (proj1 (other_calls_are_ignored Samples.unquotePlain Samples.noDecl 5
                  (Samples.selector 60%Z "prometheus" "NewDesc")
                  [Samples.str 62%Z "my_metric"; Samples.str 63%Z "help text";
                   Samples.ident 64%Z "nil"; Samples.ident 65%Z "nil"]
                  (mkVisitor Samples.fset [] [] true))).
  intros methodName H. inversion H; subst. reflexivity.
Defined.

(** X12 on [prometheus.NewDesc("my_metric", "help text", nil)] in strict
    mode. *)
Lemma NewDesc_arity_is_checked_in_strict_mode_only_witness :
  parseNewDescCallExpr Samples.unquotePlain Samples.noDecl 5
    (Samples.selector 60%Z "prometheus" "NewDesc") Samples.threeDescArgs
    (mkVisitor Samples.fset [] [] true) =
  Ok ((None, None),
      mkVisitor Samples.fset []
        [mkIssue (Samples.fset 60%Z) "" "NewDesc should have 4 args"] true).
Proof.
  apply (proj1 (NewDesc_arity_is_checked_in_strict_mode_only Samples.unquotePlain
                  Samples.noDecl 5 (Samples.selector 60%Z "prometheus" "NewDesc")
                  Samples.threeDescArgs (mkVisitor Samples.fset [] [] true)));
    [reflexivity | discriminate].
Defined.

(** X13 on [ch <- handlers[i]()] in strict mode. *)
Lemma strict_visit_panics_witness :
  Visit Samples.unquotePlain Samples.noDecl 5 Samples.sendAnonymous
    (mkVisitor Samples.fset [] [] true) = Panic IndexOutOfRange.
Proof.
  apply (proj2 (strict_visit_panics Samples.unquotePlain Samples.noDecl 5
                  Samples.sendAnonymous (mkVisitor Samples.fset [] [] true))
           (Samples.ident 70%Z "ch")
           (ast.Other "*ast.IndexExpr" 71%Z
              [Samples.ident 71%Z "handlers"; Samples.ident 72%Z "i"]));
    reflexivity.
Defined.
